(** * DoodleDiary: history store, archive exporter and session controller

    A shallow embedding of [src/App.tsx] (the [App] component and the
    [GeminiService] class that follows it) and of [src/types.ts].

    - JavaScript strings are modelled by [string]: a sequence of code units
      restricted to the range 0..255.
    - React state is one record, [AppState]; every [setX] call is a function on
      that record.
    - An [async] handler is a value of the free monad [Task]: state updates,
      effects (remote calls, clock, console, download, storage) and thrown
      exceptions, with [try_catch] and [try_finally] as the source has them.
      [run] executes a task in a [World] that answers the effects, and lets
      the rest of the application change the state while the task awaits.
    - The archive under construction is the [files] object of the JSZip
      instance, a finite map from paths to contents, written to as JSZip's
      [file] and [folder] do; what JSZip makes of a base64 payload is its
      [decode]. *)

From Stdlib Require Import ZArith Ascii String DecimalString.
From stdpp Require Import base option list strings gmap.

Local Open Scope string_scope.
Local Open Scope list_scope.

(** ** JavaScript strings *)

Module Js.

(** The code units [String.prototype.trim] removes, within 0..255:
    TAB, LF, VT, FF, CR, SPACE and NBSP. *)
Definition is_space (c : ascii) : bool :=
  match nat_of_ascii c with
  | 9 | 10 | 11 | 12 | 13 | 32 | 160 => true
  | _ => false
  end.

Fixpoint trimStart (s : string) : string :=
  match s with
  | EmptyString => EmptyString
  | String c s' => if is_space c then trimStart s' else s
  end.

Fixpoint trimEnd (s : string) : string :=
  match s with
  | EmptyString => EmptyString
  | String c s' =>
      match trimEnd s' with
      | EmptyString => if is_space c then EmptyString else String c EmptyString
      | t => String c t
      end
  end.

(** [s.trim()] *)
Definition trim (s : string) : string := trimEnd (trimStart s).

(** Truthiness of a string: only the empty string is falsy. *)
Definition truthy (s : string) : bool :=
  match s with
  | EmptyString => false
  | String _ _ => true
  end.


(** [s.split(sep)] for a separator of one code unit. The result always has at
    least one element: [''.split(',')] is [['']]. *)
Fixpoint split (sep : ascii) (s : string) : list string :=
  match s with
  | EmptyString => [EmptyString]
  | String c s' =>
      if Ascii.eqb c sep then EmptyString :: split sep s'
      else match split sep s' with
           | x :: xs => String c x :: xs
           | [] => [String c EmptyString]
           end
  end.

(** A value interpolated in a template literal: [undefined] prints as such. *)
Definition interpolate (o : option string) : string :=
  match o with
  | Some s => s
  | None => "undefined"
  end.

(** [n.toString()] for an integer-valued number. *)
Definition toString (n : Z) : string := NilZero.string_of_int (Z.to_int n).

Definition comma : ascii := ascii_of_nat 44.
Definition dquote : string := String (ascii_of_nat 34) EmptyString.
Definition newline : string := String (ascii_of_nat 10) EmptyString.

End Js.

(** ** Data model ([src/types.ts]) *)

Inductive Thickness := Fine | Medium | Bold.
Inductive ArtStyle := Minimalist | Crayon | FeltTip | Charcoal | Abstract.

Definition Thickness_str (t : Thickness) : string :=
  match t with Fine => "Fine" | Medium => "Medium" | Bold => "Bold" end.

Definition ArtStyle_str (a : ArtStyle) : string :=
  match a with
  | Minimalist => "Minimalist"
  | Crayon => "Crayon"
  | FeltTip => "Felt Tip"
  | Charcoal => "Charcoal"
  | Abstract => "Abstract"
  end.

Module DoodleStyle.
Record t := mk {
  thickness : Thickness;
  color : string;
  artStyle : ArtStyle
}.
End DoodleStyle.

Module DoodleEntry.
Record t := mk {
  id : string;
  date : string;
  transcript : string;
  imageUrl : string;
  prompt : string;
  style : DoodleStyle.t
}.
End DoodleEntry.

#[global] Instance Thickness_eq_dec : EqDecision Thickness.
Proof. solve_decision. Defined.
#[global] Instance ArtStyle_eq_dec : EqDecision ArtStyle.
Proof. solve_decision. Defined.
#[global] Instance DoodleStyle_eq_dec : EqDecision DoodleStyle.t.
Proof. solve_decision. Defined.
#[global] Instance DoodleEntry_eq_dec : EqDecision DoodleEntry.t.
Proof. solve_decision. Defined.

(** ** Component state ([App], the [useState] hooks) *)

Record AppState := mkApp {
  transcript : string;
  isRecording : bool;
  isGenerating : bool;
  isExporting : bool;
  currentDoodle : option DoodleEntry.t;
  history : list DoodleEntry.t;
  error : option string;
  style : DoodleStyle.t
}.

Definition initial_state : AppState :=
  {| transcript := EmptyString;
     isRecording := false;
     isGenerating := false;
     isExporting := false;
     currentDoodle := None;
     history := [];
     error := None;
     style := DoodleStyle.mk Medium "Black" Minimalist |}.

Definition setTranscript (v : string) (s : AppState) : AppState :=
  mkApp v (isRecording s) (isGenerating s) (isExporting s) (currentDoodle s)
        (history s) (error s) (style s).

Definition setIsGenerating (v : bool) (s : AppState) : AppState :=
  mkApp (transcript s) (isRecording s) v (isExporting s) (currentDoodle s)
        (history s) (error s) (style s).

Definition setIsExporting (v : bool) (s : AppState) : AppState :=
  mkApp (transcript s) (isRecording s) (isGenerating s) v (currentDoodle s)
        (history s) (error s) (style s).

Definition setCurrentDoodle (v : option DoodleEntry.t) (s : AppState) : AppState :=
  mkApp (transcript s) (isRecording s) (isGenerating s) (isExporting s) v
        (history s) (error s) (style s).

(** [setHistory(prev => f(prev))]; [setHistory(v)] is [setHistory (fun _ => v)]. *)
Definition setHistory (f : list DoodleEntry.t -> list DoodleEntry.t)
    (s : AppState) : AppState :=
  mkApp (transcript s) (isRecording s) (isGenerating s) (isExporting s)
        (currentDoodle s) (f (history s)) (error s) (style s).

Definition setError (v : option string) (s : AppState) : AppState :=
  mkApp (transcript s) (isRecording s) (isGenerating s) (isExporting s)
        (currentDoodle s) (history s) v (style s).

Definition setStyle (v : DoodleStyle.t) (s : AppState) : AppState :=
  mkApp (transcript s) (isRecording s) (isGenerating s) (isExporting s)
        (currentDoodle s) (history s) (error s) v.

(** ** JSON values and the archive under construction *)

(** JSON values: what [JSON.stringify] is applied to in
    [handleExportArchive], and what [JSON.parse] can return in the load
    effect. Numbers are the integral ones. *)
#[warnings="-register-all"]
Inductive json :=
| JStr (s : string)
| JArr (items : list json)
| JObj (fields : list (string * json))
| JNull
| JBool (b : bool)
| JNum (n : Z).




(** What a file of the archive holds: text, a base64 payload that the zip
    library decodes into the file's bytes ([{ base64: true }]), the text
    [JSON.stringify(value, null, 2)] of a value, or nothing for a folder. *)
Inductive FileData :=
| Text (s : string)
| Base64 (payload : string)
| Stringified (value : json)
| Folder.

(** A [JSZip] instance: its [files] object, from full path to content. The
    folder objects [zip.folder(name)] returns share it. A path is written
    with the folders on the way to it, as JSZip's [fileAdd] and [folderAdd]
    do ([createFolders] is on by default). *)
Abbreviation JSZip := (gmap string FileData).

(** [path.slice(-1) === "/"] *)
Fixpoint ends_with_slash (path : string) : bool :=
  match path with
  | EmptyString => false
  | String c EmptyString => Ascii.eqb c "/"
  | String _ rest => ends_with_slash rest
  end.

(** [path.substring(0, path.length - 1)] *)
Fixpoint drop_last (path : string) : string :=
  match path with
  | EmptyString => EmptyString
  | String _ EmptyString => EmptyString
  | String c rest => String c (drop_last rest)
  end.

(** [path.substring(0, path.lastIndexOf("/"))], [None] when [path] has no
    slash. *)
Fixpoint before_last_slash (path : string) : option string :=
  match path with
  | EmptyString => None
  | String c rest =>
      match before_last_slash rest with
      | Some p => Some (String c p)
      | None => if Ascii.eqb c "/" then Some EmptyString else None
      end
  end.

Definition forceTrailingSlash (path : string) : string :=
  if ends_with_slash path then path else path +:+ "/".

(** The folder a path is in, [''] at the top level ([lastSlash > 0 ? ... : ""]). *)
Definition parentFolder (path : string) : string :=
  let path := if ends_with_slash path then drop_last path else path in
  default EmptyString (before_last_slash path).

(** [folderAdd(name)]: a folder that is there is left alone; a new one is
    added after the folders above it. Each call goes to a shorter name;
    [fuel] bounds the depth. *)
Fixpoint folderAdd (fuel : nat) (name : string) (z : JSZip) : JSZip :=
  let name := forceTrailingSlash name in
  match z !! name with
  | Some _ => z
  | None =>
      let parent := parentFolder name in
      let z := match fuel with
               | S fuel => if Js.truthy parent then folderAdd fuel parent z else z
               | O => z
               end in
      <[name := Folder]> z
  end.

(** [fileAdd(name, data)] for a file: the folders above it are added, and
    the path is given its content, replacing what it had. *)
Definition fileAdd (name : string) (data : FileData) (z : JSZip) : JSZip :=
  let parent := parentFolder name in
  <[name := data]>
    (if Js.truthy parent then folderAdd (String.length parent) parent z else z).

(** [zip.folder(name)] at the top level. *)
Definition zip_folder (name : string) (z : JSZip) : JSZip :=
  folderAdd (String.length name) name z.

(** [folder.file(name, data)] for the folder object of [zip.folder(root)],
    whose root is the folder's name, [root/]. *)
Definition zip_file_in (root name : string) (data : FileData) (z : JSZip) : JSZip :=
  fileAdd (forceTrailingSlash root +:+ name) data z.

(** [zip.file(name, data)] at the top level. *)
Definition zip_file (name : string) (data : FileData) (z : JSZip) : JSZip :=
  fileAdd name data z.

(** The result of [zip.generateAsync({ type: 'blob' })]. *)
Inductive Blob := BlobOf (bytes : string).

(** ** The gateway's wire types ([@google/genai]) *)

Inductive Contents :=
| ContentsText (text : string)
| ContentsParts (texts : list string).

Record GenerateContentRequest := mkRequest {
  model : string;
  contents : Contents;
  aspectRatio : option string
}.

Record InlineData := mkInline { data : option string; mimeType : option string }.
Record Part := mkPart { part_text : option string; inlineData : option InlineData }.
Record Content := mkContent { parts : option (list Part) }.
Record Candidate := mkCandidate { content : option Content }.

Record GenerateContentResponse := mkResponse {
  text : option string;
  candidates : option (list Candidate)
}.

Record Clock := mkClock {
  Date_now : Z;                (* Date.now() *)
  toLocaleDateString : string; (* new Date().toLocaleDateString(undefined, ...) *)
  toISOString : string         (* new Date().toISOString() *)
}.

(** ** Tasks: the free monad of a handler's effects *)

(** A settled promise, or a call that returns or throws. *)
Inductive outcome (A : Type) :=
| Resolved (a : A)
| Rejected (err : string).
Arguments Resolved {A} & a.
Arguments Rejected {A} err.

(** What [JSON.parse] returns for a blob it accepts: the history a blob
    written by the persist effect stands for, or any other value (['{}'],
    ['null'], ['[{}]'], ...), which [setHistory] is given all the same. A
    list of entries is read as the first where a parsed value is expected. *)
Inductive Parsed :=
| ParsedHistory (h : list DoodleEntry.t)
| ParsedOther (v : json).
#[warnings="-uniform-inheritance"]
Coercion ParsedHistory : list >-> Parsed.

Inductive Effect :=
| generateContent (req : GenerateContentRequest) (* this.ai.models.generateContent *)
| generateAsync (z : JSZip)                      (* zip.generateAsync *)
| readClock
| console_error (msg : string)
| download (filename : string) (b : Blob)        (* the temporary <a download> *)
| localStorage_getItem (key : string)
| JSON_parse (blob : string)
| setHistory_value (v : json).
    (* [setHistory(v)] for a value that is no list of entries: the state
       [history] holds [v] from then on, which [AppState] cannot; the call
       is recorded and the record left as it is *)

Definition Answer (e : Effect) : Type :=
  match e with
  | generateContent _ => outcome GenerateContentResponse
  | generateAsync _ => outcome Blob
  | readClock => Clock
  | console_error _ => unit
  | download _ _ => unit
  | localStorage_getItem _ => option string
  | JSON_parse _ => outcome Parsed
  | setHistory_value _ => unit
  end.

(** The effects a task is suspended on ([await]). *)
Definition is_await (e : Effect) : bool :=
  match e with
  | generateContent _ | generateAsync _ => true
  | _ => false
  end.

Inductive Task (A : Type) : Type :=
| Ret (a : A)
| Throw (err : string)
| SetState (f : AppState -> AppState) (k : Task A)
| Perform (e : Effect) (k : Answer e -> Task A).
Arguments Ret {A} a.
Arguments Throw {A} err.
Arguments SetState {A} f k.
Arguments Perform {A} e k.

Fixpoint bind {A B} (t : Task A) (f : A -> Task B) : Task B :=
  match t with
  | Ret a => f a
  | Throw err => Throw err
  | SetState g k => SetState g (bind k f)
  | Perform e k => Perform e (fun x => bind (k x) f)
  end.

(** [try { body } catch (err) { handler err }] *)
Fixpoint try_catch {A} (body : Task A) (handler : string -> Task A) : Task A :=
  match body with
  | Ret a => Ret a
  | Throw err => handler err
  | SetState g k => SetState g (try_catch k handler)
  | Perform e k => Perform e (fun x => try_catch (k x) handler)
  end.

(** [try { body } finally { fin }] *)
Fixpoint try_finally {A} (body : Task A) (fin : Task unit) : Task A :=
  match body with
  | Ret a => bind fin (fun _ => Ret a)
  | Throw err => bind fin (fun _ => Throw err)
  | SetState g k => SetState g (try_finally k fin)
  | Perform e k => Perform e (fun x => try_finally (k x) fin)
  end.

(** [x ← t; k] and [t;; k] are the sequencing of statements. *)
#[global] Instance Task_ret : MRet Task := @Ret.
#[global] Instance Task_bind : MBind Task := fun A B f t => bind t f.

(** A state setter called as a statement. *)
Definition set (f : AppState -> AppState) : Task unit := SetState f (Ret tt).

(** An effect whose answer is used as it is. *)
Definition perform (e : Effect) : Task (Answer e) := Perform e Ret.

(** A call that returns or throws, and [await] of a promise. *)
Definition settle {A} (o : outcome A) : Task A :=
  match o with
  | Resolved a => Ret a
  | Rejected err => Throw err
  end.

(** ** Worlds and execution *)

Record World := mkWorld {
  gateway : GenerateContentRequest -> outcome GenerateContentResponse;
  zipper : JSZip -> outcome Blob;
  clock : Clock;
  localStorage : string -> option string;
  parser : string -> outcome Parsed   (* [JSON.parse], which throws or returns *)
}.

Definition respond (w : World) (e : Effect) : Answer e :=
  match e with
  | generateContent req => gateway w req
  | generateAsync z => zipper w z
  | readClock => clock w
  | console_error _ => tt
  | download _ _ => tt
  | localStorage_getItem key => localStorage w key
  | JSON_parse blob => parser w blob
  | setHistory_value _ => tt
  end.

(** What the rest of the application does to the state while a task is
    suspended: one function per [await], in order; none means nothing. *)
Abbreviation Meanwhile := (list (AppState -> AppState)).

Definition resume (e : Effect) (ms : Meanwhile) (s : AppState) : Meanwhile * AppState :=
  if is_await e then
    match ms with
    | m :: ms' => (ms', m s)
    | [] => ([], s)
    end
  else (ms, s).

Record Run (A : Type) := mkRun {
  final : AppState;
  trace : list Effect;      (* the effects performed, in order *)
  result : outcome A        (* returned, or the exception that escaped *)
}.
Arguments mkRun {A} final trace result.
Arguments final {A} r.
Arguments trace {A} r.
Arguments result {A} r.

Fixpoint run {A} (w : World) (ms : Meanwhile) (t : Task A) (s : AppState) : Run A :=
  match t with
  | Ret a => mkRun s [] (Resolved a)
  | Throw err => mkRun s [] (Rejected err)
  | SetState f k => run w ms k (f s)
  | Perform e k =>
      let r := run w (resume e ms s).1 (k (respond w e)) (resume e ms s).2 in
      mkRun (final r) (e :: trace r) (result r)
  end.

(** The state after the first [n] suspensions, seen from outside the task. *)
Definition meanwhile (ms : Meanwhile) (n : nat) (s : AppState) : AppState :=
  foldl (fun acc m => m acc) s (take n ms).

(** The remote calls among the effects of a run. *)
Definition remote_calls (tr : list Effect) : list GenerateContentRequest :=
  omap (fun e => match e with generateContent req => Some req | _ => None end) tr.

(** ** [GeminiService] *)

Module GeminiService.

Definition thicknessDesc (style : DoodleStyle.t) : string :=
  match DoodleStyle.thickness style with
  | Fine => "ultra-thin delicate"
  | Bold => "thick chunky"
  | Medium => "medium"
  end.

(** The template literal sent as [contents] by [generateVisualPrompt]. *)
Definition visualPromptContents (transcript : string) (style : DoodleStyle.t) : string :=
  let art := ArtStyle_str (DoodleStyle.artStyle style) in
  let indent := "      " in
  "Transform this daily journal entry into a single, cohesive prompt for an image generator. "
  +:+ Js.newline +:+ indent
  +:+ "The style must be: " +:+ art +:+ ". "
  +:+ Js.newline +:+ indent
  +:+ "Technical details: " +:+ thicknessDesc style +:+ " lines, color palette using "
  +:+ DoodleStyle.color style +:+ ", clean white background."
  +:+ Js.newline +:+ indent
  +:+ "The doodle should capture the emotional essence and 2-3 key events mentioned."
  +:+ Js.newline +:+ indent
  +:+ "Journal entry: " +:+ Js.dquote +:+ transcript +:+ Js.dquote
  +:+ Js.newline +:+ indent
  +:+ Js.newline +:+ indent
  +:+ "Output only the final prompt. Do not add explanations. "
  +:+ Js.newline +:+ indent
  +:+ "Format: " +:+ Js.dquote +:+ "A " +:+ art +:+ " hand-drawn doodle of [content], "
  +:+ thicknessDesc style +:+ " " +:+ DoodleStyle.color style
  +:+ " lines, white background." +:+ Js.dquote.

Definition visualPromptRequest (transcript : string) (style : DoodleStyle.t)
    : GenerateContentRequest :=
  {| model := "gemini-3-flash-preview";
     contents := ContentsText (visualPromptContents transcript style);
     aspectRatio := None |}.

(** [response.text || 'A simple doodle of a peaceful day.'] *)
Definition visualPromptOf (response : GenerateContentResponse) : string :=
  match text response with
  | Some t => if Js.truthy t then t else "A simple doodle of a peaceful day."
  | None => "A simple doodle of a peaceful day."
  end.

Definition generateVisualPrompt (transcript : string) (style : DoodleStyle.t)
    : Task string :=
  response ← Perform (generateContent (visualPromptRequest transcript style)) settle;
  mret (visualPromptOf response).

Definition doodleRequest (visualPrompt : string) : GenerateContentRequest :=
  {| model := "gemini-2.5-flash-image";
     contents := ContentsParts [visualPrompt];
     aspectRatio := Some "1:1" |}.

(** [response.candidates?.[0]?.content?.parts || []] *)
Definition responseParts (response : GenerateContentResponse) : list Part :=
  default [] (cs ← candidates response; c ← cs !! 0%nat; ct ← content c; parts ct).

(** The [for] loop of [generateDoodle]: the first part with [inlineData]
    decides, and [imageUrl] stays [''] when there is none. *)
Fixpoint firstInlineImage (ps : list Part) : string :=
  match ps with
  | [] => EmptyString
  | part :: rest =>
      match inlineData part with
      | Some inline => "data:image/png;base64," +:+ Js.interpolate (data inline)
      | None => firstInlineImage rest
      end
  end.

Definition generateDoodle (visualPrompt : string) : Task string :=
  response ← Perform (generateContent (doodleRequest visualPrompt)) settle;
  mret (firstInlineImage (responseParts response)).

End GeminiService.

(** ** [App]: the history store *)

(** The updater [prev => [newEntry, ...prev]] of [handleGenerateDoodle]. *)
Definition prepend (newEntry : DoodleEntry.t) (prev : list DoodleEntry.t)
    : list DoodleEntry.t :=
  newEntry :: prev.

(** The updater [prev => prev.filter(e => e.id !== id)] of [deleteEntry]. *)
Definition removeById (id : string) (prev : list DoodleEntry.t) : list DoodleEntry.t :=
  filter (fun e => DoodleEntry.id e ≠ id) prev.


(** [deleteEntry(id)], called from a render whose state is [r]. *)
Definition deleteEntry (r : AppState) (id : string) : Task unit :=
  set (setHistory (removeById id));;
  if decide (DoodleEntry.id <$> currentDoodle r = Some id)
  then set (setCurrentDoodle None)
  else mret tt.

(** ** [App]: the session controller *)

Definition generate_error : string := "Failed to generate doodle. Please try again.".

(** [handleGenerateDoodle], called from a render whose state is [r]: the
    closure reads [transcript] and [style] from [r] whatever happens to the
    state while it awaits. *)
Definition handleGenerateDoodle (r : AppState) : Task unit :=
  if negb (Js.truthy (Js.trim (transcript r))) then mret tt
  else
    set (setIsGenerating true);;
    set (setError None);;
    try_finally
      (try_catch
         (visualPrompt ← GeminiService.generateVisualPrompt (transcript r) (style r);
          imageUrl ← GeminiService.generateDoodle visualPrompt;
          now ← perform readClock;
          let newEntry :=
            {| DoodleEntry.id := Js.toString (Date_now now);
               DoodleEntry.date := toLocaleDateString now;
               DoodleEntry.transcript := transcript r;
               DoodleEntry.imageUrl := imageUrl;
               DoodleEntry.prompt := visualPrompt;
               DoodleEntry.style := style r |} in
          set (setCurrentDoodle (Some newEntry));;
          set (setHistory (prepend newEntry));;
          set (setTranscript EmptyString))
         (fun err =>
            perform (console_error err);;
            set (setError (Some generate_error))))
      (set (setIsGenerating false)).

(** The Generate button: [disabled={!transcript.trim() || isGenerating}]. *)
Definition generate_disabled (r : AppState) : bool :=
  negb (Js.truthy (Js.trim (transcript r))) || isGenerating r.

(** A click on the Generate button; a disabled button dispatches nothing. *)
Definition click_generate (r : AppState) : Task unit :=
  if generate_disabled r then mret tt else handleGenerateDoodle r.

(** ** [App]: the archive exporter *)

Definition export_error : string := "Failed to create archive. Please try again.".

Definition style_json (st : DoodleStyle.t) : json :=
  JObj [("thickness", JStr (Thickness_str (DoodleStyle.thickness st)));
        ("color", JStr (DoodleStyle.color st));
        ("artStyle", JStr (ArtStyle_str (DoodleStyle.artStyle st)))].

(** The object pushed on [metadata] for one entry. *)
Definition metadata_of (entry : DoodleEntry.t) : json :=
  JObj [("id", JStr (DoodleEntry.id entry));
        ("date", JStr (DoodleEntry.date entry));
        ("style", style_json (DoodleEntry.style entry));
        ("prompt", JStr (DoodleEntry.prompt entry))].

Definition fileNameBase (entry : DoodleEntry.t) : string :=
  "doodle-" +:+ DoodleEntry.id entry.

Definition transcript_path (entry : DoodleEntry.t) : string :=
  "transcripts" +:+ "/" +:+ (fileNameBase entry +:+ ".txt").

Definition image_path (entry : DoodleEntry.t) : string :=
  "doodles" +:+ "/" +:+ (fileNameBase entry +:+ ".png").

(** [entry.imageUrl.split(',')[1]] *)
Definition base64Data (entry : DoodleEntry.t) : option string :=
  Js.split Js.comma (DoodleEntry.imageUrl entry) !! 1%nat.

(** The body of [for (const entry of history)]: the archive and the
    [metadata] array before and after one entry. *)
Definition export_entry (acc : JSZip * list json) (entry : DoodleEntry.t)
    : JSZip * list json :=
  let zip := zip_file_in "transcripts" (fileNameBase entry +:+ ".txt")
               (Text (DoodleEntry.transcript entry)) acc.1 in
  let zip :=
    match base64Data entry with
    | Some payload =>
        if Js.truthy payload
        then zip_file_in "doodles" (fileNameBase entry +:+ ".png") (Base64 payload) zip
        else zip
    | None => zip
    end in
  (zip, acc.2 ++ [metadata_of entry]).

(** The archive and [metadata] when the loop has run over [entries]. *)
Definition export_loop (entries : list DoodleEntry.t) : JSZip * list json :=
  foldl export_entry (zip_folder "transcripts" (zip_folder "doodles" ∅), []) entries.

Definition manifest (metadata : list json) (exportedAt : string) : json :=
  JObj [("entries", JArr metadata); ("exportedAt", JStr exportedAt)].

(** The archive handed to [generateAsync]. *)
Definition assemble (entries : list DoodleEntry.t) (exportedAt : string) : JSZip :=
  zip_file "index.json"
    (Stringified (manifest (export_loop entries).2 exportedAt))
    (export_loop entries).1.

Definition archive_name (iso : string) : string :=
  "DoodleDiary-Archive-" +:+ Js.interpolate (Js.split "T"%char iso !! 0%nat) +:+ ".zip".

(** [handleExportArchive], called from a render whose state is [r]. *)
Definition handleExportArchive (r : AppState) : Task unit :=
  if decide (length (history r) = 0%nat) then mret tt
  else
    set (setIsExporting true);;
    set (setError None);;
    try_finally
      (try_catch
         (now ← perform readClock;
          let zip := assemble (history r) (toISOString now) in
          blob ← Perform (generateAsync zip) settle;
          today ← perform readClock;
          perform (download (archive_name (toISOString today)) blob))
         (fun err =>
            perform (console_error ("Export failed: " +:+ err));;
            set (setError (Some export_error))))
      (set (setIsExporting false)).

(** ** Sample values *)

Module Sample.

Definition picnic_style : DoodleStyle.t := DoodleStyle.mk Medium "Black" Minimalist.

Definition entry (id url : string) : DoodleEntry.t :=
  DoodleEntry.mk id "Monday, November 2, 2026" ("day " +:+ id) url ("prompt " +:+ id)
    picnic_style.

Definition e1 : DoodleEntry.t := entry "1" "data:image/png;base64,AAAA".
Definition e2 : DoodleEntry.t := entry "2" "data:image/png;base64,BBBB".
Definition e3 : DoodleEntry.t := entry "3" "data:image/png;base64,CCCC".

Definition image_part (payload : string) : Part :=
  mkPart None (Some (mkInline (Some payload) (Some "image/png"))).

Definition text_part (t : string) : Part := mkPart (Some t) None.

Definition response_with (ps : list Part) : GenerateContentResponse :=
  mkResponse (Some "A Minimalist hand-drawn doodle of a picnic")
    (Some [mkCandidate (Some (mkContent (Some ps)))]).

Definition clock0 : Clock :=
  mkClock 1793577600000 "Monday, November 2, 2026" "2026-11-02T00:00:00.000Z".

(** A world whose gateway answers every request with the parts [ps]. *)
Definition world (ps : list Part) : World :=
  {| gateway := fun _ => Resolved (response_with ps);
     zipper := fun _ => Resolved (BlobOf "PK");
     clock := clock0;
     localStorage := fun _ => None;
     parser := fun _ => Rejected "SyntaxError" |}.


Definition typing (t : string) : AppState := setTranscript t initial_state.

(** The state after two generations in the same world, whose clock reads the
    same value both times. *)
Definition twice : AppState :=
  let w := world [image_part "AAAA"] in
  let s1 := final (run w [] (handleGenerateDoodle (typing "Had a picnic"))
                     (typing "Had a picnic")) in
  final (run w [] (handleGenerateDoodle (setTranscript "Went home" s1))
           (setTranscript "Went home" s1)).

End Sample.

(** ** Vocabulary of the properties *)

(** Every code unit of [s] is white space; so is the empty string. *)
Definition whitespace_only (s : string) : bool :=
  forallb Js.is_space (list_ascii_of_string s).

(** The state in which the body of [handleGenerateDoodle] starts. *)
Definition generating (s : AppState) : AppState :=
  setError None (setIsGenerating true s).

(** The entry [handleGenerateDoodle] builds from the two responses. *)
Definition entry_of (w : World) (s : AppState)
    (resp1 resp2 : GenerateContentResponse) : DoodleEntry.t :=
  {| DoodleEntry.id := Js.toString (Date_now (clock w));
     DoodleEntry.date := toLocaleDateString (clock w);
     DoodleEntry.transcript := transcript s;
     DoodleEntry.imageUrl :=
       GeminiService.firstInlineImage (GeminiService.responseParts resp2);
     DoodleEntry.prompt := GeminiService.visualPromptOf resp1;
     DoodleEntry.style := style s |}.

(** The await at which a generation started in [s] fails: [Some 1] for the
    prompt call, [Some 2] for the image call, [None] when both succeed. *)
Definition fails_at (w : World) (s : AppState) : option nat :=
  match gateway w (GeminiService.visualPromptRequest (transcript s) (style s)) with
  | Rejected _ => Some 1
  | Resolved resp1 =>
      match gateway w (GeminiService.doodleRequest (GeminiService.visualPromptOf resp1)) with
      | Rejected _ => Some 2
      | Resolved _ => None
      end
  end.

(** The requests a generation started in [s] sends before call [n] fails. *)
Definition requests_until (w : World) (s : AppState) (n : nat)
    : list GenerateContentRequest :=
  let req1 := GeminiService.visualPromptRequest (transcript s) (style s) in
  match n, gateway w req1 with
  | 2, Resolved resp1 =>
      [req1; GeminiService.doodleRequest (GeminiService.visualPromptOf resp1)]
  | _, _ => [req1]
  end.

Definition comma_free (s : string) : bool :=
  forallb (fun c => negb (Ascii.eqb c Js.comma)) (list_ascii_of_string s).

(** The alphabet of base64: letters, digits, [+], [/] and the padding [=]. *)
Definition is_base64_char (c : ascii) : bool :=
  let n := nat_of_ascii c in
  (((65 <=? n) && (n <=? 90)) || ((97 <=? n) && (n <=? 122))
   || ((48 <=? n) && (n <=? 57)) || (n =? 43) || (n =? 47) || (n =? 61))%nat.

Definition is_base64 (s : string) : bool :=
  forallb is_base64_char (list_ascii_of_string s).


(** The code of a code unit, and the bytes of a binary string. *)
Definition code (c : ascii) : Z := Z.of_N (N_of_ascii c).


(** Base64 as the browser writes it ([btoa], which [encode] calls) and as
    JSZip reads the content of a file added with [{ base64: true }]
    ([decode] of its [base64] module). *)
Module Base64Codec.

Definition _keyStr : string :=
  "ABCDEFGHIJKLMNOPQRSTUVWXYZabcdefghijklmnopqrstuvwxyz0123456789+/=".

(** [_keyStr.charAt(i)] for an index within the string. *)
Definition charAt (i : Z) : ascii :=
  nth (Z.to_nat i) (list_ascii_of_string _keyStr) "="%char.

Fixpoint indexOf_from (i : Z) (c : ascii) (s : list ascii) : Z :=
  match s with
  | [] => (-1)%Z
  | x :: rest => if Ascii.eqb x c then i else indexOf_from (i + 1)%Z c rest
  end.

(** [_keyStr.indexOf(c)] *)
Definition indexOf (c : ascii) : Z :=
  indexOf_from 0 c (list_ascii_of_string _keyStr).

(** The four digits of three bytes. *)
Definition digit1 (a : ascii) : ascii := charAt (Z.shiftr (code a) 2).
Definition digit2 (a b : ascii) : ascii :=
  charAt (Z.lor (Z.shiftl (Z.land (code a) 3) 4) (Z.shiftr (code b) 4)).
Definition digit3 (b c : ascii) : ascii :=
  charAt (Z.lor (Z.shiftl (Z.land (code b) 15) 2) (Z.shiftr (code c) 6)).
Definition digit4 (c : ascii) : ascii := charAt (Z.land (code c) 63).

(** [btoa]: three bytes give four digits; a last group of one or two bytes
    is filled with zero bits and padded with [=]. *)
Fixpoint btoa_loop (s : string) : list ascii :=
  match s with
  | EmptyString => []
  | String a EmptyString => [digit1 a; digit2 a zero; "="; "="]%char
  | String a (String b EmptyString) => [digit1 a; digit2 a b; digit3 b zero; "="]%char
  | String a (String b (String c rest)) =>
      digit1 a :: digit2 a b :: digit3 b c :: digit4 c :: btoa_loop rest
  end.

Definition btoa (s : string) : string := string_of_list_ascii (btoa_loop s).

(** One turn of the [while] loop of [decode]: the bytes written for four
    digits; a byte stored in a [Uint8Array] is taken modulo 256. *)
Definition quad (enc1 enc2 enc3 enc4 : Z) : list Z :=
  let chr1 := Z.lor (Z.shiftl enc1 2) (Z.shiftr enc2 4) in
  let chr2 := Z.lor (Z.shiftl (Z.land enc2 15) 4) (Z.shiftr enc3 2) in
  let chr3 := Z.lor (Z.shiftl (Z.land enc3 3) 6) enc4 in
  [chr1 mod 256]%Z
  ++ (if decide (enc3 = 64%Z) then [] else [chr2 mod 256]%Z)
  ++ (if decide (enc4 = 64%Z) then [] else [chr3 mod 256]%Z).

(** The [while] loop. [input.charAt(i)] past the end is [''], whose index in
    [_keyStr] is 0. *)
Fixpoint decode_loop (input : list ascii) : list Z :=
  match input with
  | [] => []
  | [c1] => quad (indexOf c1) 0%Z 0%Z 0%Z
  | [c1; c2] => quad (indexOf c1) (indexOf c2) 0%Z 0%Z
  | [c1; c2; c3] => quad (indexOf c1) (indexOf c2) (indexOf c3) 0%Z
  | c1 :: c2 :: c3 :: c4 :: rest =>
      quad (indexOf c1) (indexOf c2) (indexOf c3) (indexOf c4) ++ decode_loop rest
  end.

(** The number of [=] among the last two characters. *)
Definition padding (input : list ascii) : nat :=
  match rev input with
  | a :: b :: _ => (if Ascii.eqb a "=" then 1 else 0) + (if Ascii.eqb b "=" then 1 else 0)
  | [a] => if Ascii.eqb a "=" then 1 else 0
  | [] => 0
  end.

(** [decode(input)]: a text that starts like a data URL is refused; the
    characters outside the alphabet are dropped; a length that gives no
    whole number of bytes is refused; the bytes are written in an array of
    the length computed, which drops what does not fit and leaves zeros
    where nothing is written. *)
Definition decode (input : string) : outcome (list Z) :=
  if String.prefix "data:" input
  then Rejected "Invalid base64 input, it looks like a data url."
  else
    let input := filter (fun c => is_base64_char c = true) (list_ascii_of_string input) in
    if decide (length input * 3 mod 4 = 0)%nat
    then
      let totalLength := (length input * 3 / 4 - padding input)%nat in
      Resolved (take totalLength (decode_loop input ++ replicate totalLength 0%Z))
    else Rejected "Invalid base64 input, bad content length.".

End Base64Codec.


(** No code unit of [s] is a slash. *)
Definition slash_free (s : string) : bool :=
  forallb (fun c => negb (Ascii.eqb c "/")) (list_ascii_of_string s).

(** [s] starts with [p]. *)
Definition starts_with (p s : string) : Prop := ∃ rest, s = p +:+ rest.





Ltac step_run :=
  cbn -[GeminiService.visualPromptRequest GeminiService.doodleRequest
        Js.toString Js.trim meanwhile].

(** ** [App]: the colour swatches, the Archive button and voice input *)

Module ColorMap.

(** What a property read on the object literal [map] can give: one of its
    own strings, or a member inherited from [Object.prototype] (a function
    or an object, so truthy and not a string). *)
Inductive value :=
| Str (s : string)
| Inherited (key : string).

(** The own properties of [map], in source order. *)
Definition own : list (string * string) :=
  [("Black", "#000000");
   ("Ink Blue", "#003366");
   ("Deep Red", "#8b0000");
   ("Forest Green", "#228b22");
   ("Golden", "#d4af37");
   ("Ocean Blue", "#0077be");
   ("Sunset Orange", "#fd5e53");
   ("Emerald Green", "#50c878");
   ("Royal Purple", "#7851a9")].

(** The property names every object literal inherits. *)
Definition Object_prototype : list string :=
  ["constructor"; "hasOwnProperty"; "isPrototypeOf"; "propertyIsEnumerable";
   "toLocaleString"; "toString"; "valueOf"; "__proto__";
   "__defineGetter__"; "__defineSetter__"; "__lookupGetter__"; "__lookupSetter__"].

Fixpoint lookup_own (key : string) (props : list (string * string)) : option string :=
  match props with
  | [] => None
  | (k, v) :: rest => if decide (k = key) then Some v else lookup_own key rest
  end.

(** [map[colorName]], [None] for [undefined]. *)
Definition get (colorName : string) : option value :=
  match lookup_own colorName own with
  | Some hex => Some (Str hex)
  | None =>
      if bool_decide (colorName ∈ Object_prototype)
      then Some (Inherited colorName)
      else None
  end.

End ColorMap.

(** [getColorHex(colorName)]: [map[colorName] || '#000000']. *)
Definition getColorHex (colorName : string) : ColorMap.value :=
  match ColorMap.get colorName with
  | Some (ColorMap.Str s) =>
      if Js.truthy s then ColorMap.Str s else ColorMap.Str "#000000"
  | Some inherited => inherited
  | None => ColorMap.Str "#000000"
  end.



Definition setIsRecording (v : bool) (s : AppState) : AppState :=
  mkApp (transcript s) v (isGenerating s) (isExporting s) (currentDoodle s)
        (history s) (error s) (style s).

(** Voice input: [handleStartRecording], [handleStopRecording] and the
    callbacks given to [GeminiService.connectVoice]. The microphone, the
    audio graph and the transport are left out; what is kept is each
    session's [currentTranscription], whether its connection promise
    resolves, and what the callbacks do to the state. *)
Module Voice.

Definition start_error : string :=
  "Failed to start voice session. Please ensure microphone permissions are granted.".

Definition connection_error : string :=
  "Voice connection error. Please check your microphone.".

(** The object [connectVoice] returns, with the variables its closures
    hold. *)
Record Session := mkSession {
  currentTranscription : string;
  sessionPromise : outcome unit   (* the promise of [ai.live.connect] *)
}.

(** The component with its [voiceSessionRef], and the sessions the ref held
    earlier: stopped or replaced, their callbacks still hold their own
    [currentTranscription] and still call [setTranscript]. *)
Record Recorder := mkRecorderWith {
  app : AppState;
  voiceSessionRef : option Session;
  earlier : list Session
}.

(** A recorder that had no session before. *)
Definition mkRecorder (state : AppState) (ref : option Session) : Recorder :=
  mkRecorderWith state ref [].

(** What happens around voice input. *)
Inductive Event :=
| Message (inputTranscription : option (option string))
    (* [onmessage] of the session the ref holds:
       [serverContent?.inputTranscription], and its [text] *)
| LateMessage (i : nat) (inputTranscription : option (option string))
    (* [onmessage] of the earlier session number [i] *)
| Typed (value : string)      (* the textarea's [onChange] *)
| ConnectionError (err : string)  (* [onerror] *)
| Closed.                     (* [onclose] *)

(** [handleStartRecording]; [connect] is how [connectVoice] settles and
    [promise] how the connection it opens does. A session the ref held is
    replaced, not closed. *)
Definition handleStartRecording (connect promise : outcome unit) (rec : Recorder)
    : Recorder :=
  let started := setIsRecording true (setError None (app rec)) in
  match connect with
  | Resolved _ =>
      mkRecorderWith started (Some (mkSession EmptyString promise))
        (earlier rec ++ option_list (voiceSessionRef rec))
  | Rejected _ =>
      mkRecorderWith (setIsRecording false (setError (Some start_error) started))
        (voiceSessionRef rec) (earlier rec)
  end.

(** The callbacks and the textarea. Without a session in the ref there is
    no [Message]: the recorder is left as it is. *)
Definition step (rec : Recorder) (ev : Event) : Recorder :=
  match ev with
  | Message (Some text) =>
      match voiceSessionRef rec with
      | Some session =>
          let current := currentTranscription session +:+ Js.interpolate text in
          mkRecorderWith (setTranscript current (app rec))
            (Some (mkSession current (sessionPromise session))) (earlier rec)
      | None => rec
      end
  | Message None => rec
  | LateMessage i (Some text) =>
      match earlier rec !! i with
      | Some session =>
          let current := currentTranscription session +:+ Js.interpolate text in
          mkRecorderWith (setTranscript current (app rec)) (voiceSessionRef rec)
            (<[i := mkSession current (sessionPromise session)]> (earlier rec))
      | None => rec
      end
  | LateMessage _ None => rec
  | Typed value =>
      mkRecorderWith (setTranscript value (app rec)) (voiceSessionRef rec) (earlier rec)
  | ConnectionError _ =>
      mkRecorderWith (setIsRecording false (setError (Some connection_error) (app rec)))
        (voiceSessionRef rec) (earlier rec)
  | Closed =>
      mkRecorderWith (setIsRecording false (app rec)) (voiceSessionRef rec) (earlier rec)
  end.

(** [handleStopRecording]: the recorder after it, and whether it returned or
    let the rejection of [stop()] escape. *)
Definition handleStopRecording (rec : Recorder) : Recorder * outcome unit :=
  match voiceSessionRef rec with
  | Some session =>
      match sessionPromise session with
      | Resolved _ =>
          (mkRecorderWith
             (setIsRecording false
                (setTranscript (currentTranscription session) (app rec)))
             None (earlier rec ++ [session]),
           Resolved tt)
      | Rejected err => (rec, Rejected err)
      end
  | None => (rec, Resolved tt)
  end.

(** The texts of the transcription messages of the session the ref holds,
    among some events. *)
Definition transcribed (evs : list Event) : list string :=
  omap (fun ev => match ev with
                  | Message (Some text) => Some (Js.interpolate text)
                  | _ => None
                  end) evs.

Definition concat (texts : list string) : string :=
  foldr String.append EmptyString texts.

End Voice.

(** The current-entry reference after [deleteEntry(id)]. *)
Definition current_after_delete (id : string) (current : option DoodleEntry.t)
    : option DoodleEntry.t :=
  match current with
  | Some e => if decide (DoodleEntry.id e = id) then None else Some e
  | None => None
  end.

(** Hexadecimal colours: [#] and six hexadecimal digits. *)
Definition is_hex_digit (c : ascii) : bool :=
  let n := nat_of_ascii c in
  (((48 <=? n) && (n <=? 57)) || ((97 <=? n) && (n <=? 102))
   || ((65 <=? n) && (n <=? 70)))%nat.

Definition is_hex_color (s : string) : bool :=
  match s with
  | String c rest =>
      Ascii.eqb c "#"%char && (String.length rest =? 6)%nat
      && forallb is_hex_digit (list_ascii_of_string rest)
  | EmptyString => false
  end.

(** The first part with inline data, as [generateDoodle]'s loop finds it. *)
Fixpoint firstInline (ps : list Part) : option InlineData :=
  match ps with
  | [] => None
  | part :: rest =>
      match inlineData part with
      | Some inline => Some inline
      | None => firstInline rest
      end
  end.

(** * Properties *)

(** ** Strings *)

Example split_data_uri :
  Js.split Js.comma "data:image/png;base64,AAAA" = ["data:image/png;base64"; "AAAA"].
Proof. reflexivity. Qed.

Example split_empty : Js.split Js.comma EmptyString = [EmptyString].
Proof. reflexivity. Qed.

Example split_trailing : Js.split Js.comma "data:," = ["data:"; EmptyString].
Proof. reflexivity. Qed.

Example trim_both_ends : Js.trim "  Had a picnic  " = "Had a picnic".
Proof. reflexivity. Qed.

Example toString_clock : Js.toString 1793577600000 = "1793577600000".
Proof. reflexivity. Qed.

Lemma trimStart_blank s : whitespace_only s = true → Js.trimStart s = EmptyString.
Proof.
  induction s as [|c s IH]; [done|].
  unfold whitespace_only; simpl. intros H. apply andb_true_iff in H as [Hc Hs].
  rewrite Hc. by apply IH.
Qed.

Lemma trimEnd_nonblank c s : Js.is_space c = false → Js.trimEnd (String c s) ≠ EmptyString.
Proof. intros Hc. simpl. destruct (Js.trimEnd s); [by rewrite Hc|done]. Qed.

Lemma trimStart_spec s :
  Js.trimStart s = EmptyString ∧ whitespace_only s = true
  ∨ ∃ c t, Js.trimStart s = String c t ∧ Js.is_space c = false.
Proof.
  induction s as [|c s IH]; [by left|].
  simpl. destruct (Js.is_space c) eqn:Hc.
  - destruct IH as [[-> Hs]|IH]; [left|by right].
    split; [done|]. unfold whitespace_only in *. simpl. by rewrite Hc, Hs.
  - right. by exists c, s.
Qed.

(** [s.trim()] is empty exactly when every code unit of [s] is white space. *)
Lemma trim_blank s : Js.trim s = EmptyString ↔ whitespace_only s = true.
Proof.
  unfold Js.trim. split.
  - destruct (trimStart_spec s) as [[_ ?]|(c & t & -> & Hc)]; [done|].
    intros H. by apply trimEnd_nonblank in H.
  - intros H. by rewrite trimStart_blank.
Qed.

Lemma base64_comma_free s : is_base64 s = true → comma_free s = true.
Proof.
  unfold is_base64, comma_free. induction s as [|c s IH]; [done|]. simpl.
  intros H. apply andb_true_iff in H as [Hc Hs]. rewrite IH by done.
  rewrite andb_true_r. destruct (Ascii.eqb_spec c Js.comma) as [->|]; [|done].
  by vm_compute in Hc.
Qed.

Lemma split_comma_free sep s :
  forallb (fun c => negb (Ascii.eqb c sep)) (list_ascii_of_string s) = true →
  Js.split sep s = [s].
Proof.
  induction s as [|c s IH]; [done|]. simpl.
  intros H. apply andb_true_iff in H as [Hc Hs].
  apply negb_true_iff in Hc. rewrite Hc, IH by done. done.
Qed.

Lemma split_at_first sep header rest :
  forallb (fun c => negb (Ascii.eqb c sep)) (list_ascii_of_string header) = true →
  Js.split sep (header +:+ String sep rest) = header :: Js.split sep rest.
Proof.
  induction header as [|c header IH]; simpl.
  - intros _. by rewrite Ascii.eqb_refl.
  - intros H. apply andb_true_iff in H as [Hc Hs].
    apply negb_true_iff in Hc. rewrite Hc, IH by done. done.
Qed.

Lemma length_append (s1 s2 : string) :
  String.length (s1 +:+ s2) = String.length s1 + String.length s2.
Proof. induction s1 as [|c s1 IH]; simpl; [done|]. by rewrite IH. Qed.

Lemma append_inj_l (s1 s2 t : string) : s1 +:+ t = s2 +:+ t → s1 = s2.
Proof.
  revert s2. induction s1 as [|c s1 IH]; intros [|c2 s2] H; simpl in *.
  - done.
  - apply (f_equal String.length) in H. simpl in H. rewrite !length_append in H.
    simpl in H. lia.
  - apply (f_equal String.length) in H. simpl in H. rewrite !length_append in H.
    simpl in H. lia.
  - injection H as -> H. f_equal. by apply IH.
Qed.

Lemma append_assoc (s1 s2 s3 : string) : (s1 +:+ s2) +:+ s3 = s1 +:+ (s2 +:+ s3).
Proof.
  induction s1 as [|c s1 IH]; [done|].
  change (String c ((s1 +:+ s2) +:+ s3) = String c (s1 +:+ s2 +:+ s3)).
  by rewrite IH.
Qed.

Lemma append_empty_r (s : string) : s +:+ EmptyString = s.
Proof.
  induction s as [|c s IH]; [done|].
  change (String c (s +:+ EmptyString) = String c s). by rewrite IH.
Qed.

(** ** Execution *)

Lemma resume_drop e ms s tr :
  drop (length (filter is_await (e :: tr))) ms =
  drop (length (filter is_await tr)) (resume e ms s).1.
Proof.
  unfold resume. destruct (is_await e) eqn:He.
  - rewrite filter_cons_True by by rewrite He.
    destruct ms; cbn [length fst]; rewrite ?drop_nil; reflexivity.
  - rewrite filter_cons_False by (rewrite He; exact id). done.
Qed.

(** Sequencing: the second task starts where the first one ended, with the
    interleavings the first one has not consumed; an exception of the first
    skips the second. *)
Lemma run_bind {A B} w ms (t : Task A) (f : A → Task B) s :
  run w ms (bind t f) s =
  match result (run w ms t s) with
  | Resolved a =>
      let r := run w (drop (length (filter is_await (trace (run w ms t s)))) ms)
                 (f a) (final (run w ms t s)) in
      mkRun (final r) (trace (run w ms t s) ++ trace r) (result r)
  | Rejected err =>
      mkRun (final (run w ms t s)) (trace (run w ms t s)) (Rejected err)
  end.
Proof.
  revert ms s. induction t as [a|err|g k IH|e k IH]; intros ms s;
    cbn [run bind final trace result].
  - rewrite drop_0. by destruct (run w ms (f a) s).
  - done.
  - apply IH.
  - rewrite IH, (resume_drop e ms s).
    by destruct (result (run w _ (k (respond w e)) _)).
Qed.

Lemma remote_calls_requests (l : list GenerateContentRequest) (rest : list Effect) :
  remote_calls ((generateContent <$> l) ++ rest) = l ++ remote_calls rest.
Proof.
  unfold remote_calls. induction l as [|req l IH]; [done|].
  cbn. by rewrite <- IH.
Qed.

(** The loop of [generateDoodle] passes over the parts without inline data. *)
Lemma firstInlineImage_skip (pre rest : list Part) :
  Forall (fun p => inlineData p = None) pre →
  GeminiService.firstInlineImage (pre ++ rest) = GeminiService.firstInlineImage rest.
Proof.
  induction 1 as [|p pre Hp _ IH]; [done|].
  cbn [app GeminiService.firstInlineImage]. by rewrite Hp.
Qed.

Lemma firstInlineImage_nonempty ps :
  GeminiService.firstInlineImage ps ≠ EmptyString ↔
  ∃ p, p ∈ ps ∧ is_Some (inlineData p).
Proof.
  induction ps as [|p ps IH]; simpl.
  - split; [done|]. intros (p & Hp & _). by apply elem_of_nil in Hp.
  - destruct (inlineData p) as [d|] eqn:Hd.
    + split; [|done]. intros _. exists p. split; [left|by rewrite Hd].
    + rewrite IH. split.
      * intros (q & Hq & ?). exists q. split; [by right|done].
      * intros (q & Hq & Hs). apply elem_of_cons in Hq as [->|Hq].
        -- rewrite Hd in Hs. by destruct Hs.
        -- by exists q.
Qed.

(** ** The session controller and the history store, in any world *)

Section InWorld.

Context (w : World) (ms : Meanwhile).

Lemma handleGenerateDoodle_blank s :
  Js.trim (transcript s) = EmptyString → handleGenerateDoodle s = Ret tt.
Proof. unfold handleGenerateDoodle. by intros ->. Qed.

(** C3: in a state whose transcript is empty or white space only, or in which
    a generation is active, the generate action does nothing: no effect is
    performed, so no remote call is made and no entry created, and the state
    is left as it was. The blank transcript is refused by the handler itself
    too; an active generation is refused by the disabled button, through
    which alone the handler is called. *)
Theorem generate_gated (s : AppState) :
  whitespace_only (transcript s) = true ∨ isGenerating s = true →
  run w ms (click_generate s) s = mkRun s [] (Resolved tt)
  ∧ remote_calls (trace (run w ms (click_generate s) s)) = []
  ∧ (whitespace_only (transcript s) = true →
     run w ms (handleGenerateDoodle s) s = mkRun s [] (Resolved tt)).
Proof.
  intros H.
  assert (click_generate s = Ret tt) as ->.
  { unfold click_generate, generate_disabled.
    destruct H as [H| ->].
    - apply trim_blank in H. by rewrite H.
    - by rewrite orb_true_r. }
  split; [done|]. split; [done|].
  intros Hb. apply trim_blank in Hb. by rewrite handleGenerateDoodle_blank.
Qed.

(** A generation whose two calls succeed, as one equation. *)
Lemma run_generate_ok (s : AppState) (resp1 resp2 : GenerateContentResponse) :
  Js.truthy (Js.trim (transcript s)) = true →
  gateway w (GeminiService.visualPromptRequest (transcript s) (style s))
    = Resolved resp1 →
  gateway w (GeminiService.doodleRequest (GeminiService.visualPromptOf resp1))
    = Resolved resp2 →
  run w ms (handleGenerateDoodle s) s =
  mkRun
    (setIsGenerating false
       (setTranscript EmptyString
          (setHistory (prepend (entry_of w s resp1 resp2))
             (setCurrentDoodle (Some (entry_of w s resp1 resp2))
                (meanwhile ms 2 (generating s))))))
    [generateContent (GeminiService.visualPromptRequest (transcript s) (style s));
     generateContent (GeminiService.doodleRequest (GeminiService.visualPromptOf resp1));
     readClock]
    (Resolved tt).
Proof.
  intros Ht H1 H2. unfold handleGenerateDoodle. rewrite Ht.
  step_run. rewrite H1. step_run. rewrite H2.
  by destruct ms as [|m1 [|m2 ms']].
Qed.

(** A generation whose call number [n] fails, as one equation. *)
Lemma run_generate_failed (s : AppState) (n : nat) :
  Js.truthy (Js.trim (transcript s)) = true →
  fails_at w s = Some n →
  ∃ err,
    run w ms (handleGenerateDoodle s) s =
    mkRun
      (setIsGenerating false
         (setError (Some generate_error) (meanwhile ms n (generating s))))
      ((generateContent <$> requests_until w s n) ++ [console_error err])
      (Resolved tt).
Proof.
  intros Ht Hf. unfold fails_at in Hf. unfold handleGenerateDoodle, requests_until.
  rewrite Ht. step_run.
  destruct (gateway w (GeminiService.visualPromptRequest _ _)) as [resp1|err1].
  - step_run.
    destruct (gateway w (GeminiService.doodleRequest _)) as [resp2|err2]; [done|].
    injection Hf as <-. exists err2. by destruct ms as [|m1 [|m2 ms']].
  - injection Hf as <-. exists err1. by destruct ms as [|m1 ms'].
Qed.

(** C4, as the code has it: when both remote calls of a generation succeed,
    the handler returns normally, the input transcript is cleared, the new
    entry is the current entry and stands at index 0 of History, in front of
    the history as it is when the image call returns; the entry carries the
    style of the render the request was made from and the image URL the image
    call produced. That URL is read from the parts of the first candidate of
    the image response: it is [data:image/png;base64,] followed by the data
    of the first part that has inline data ([undefined] when that part has
    no data field), and it is empty when no part has inline data or when
    the response has no candidate, no content or no parts. So it is
    non-empty exactly when the response has a part with inline data. *)
Theorem generate_success (s : AppState) (resp1 resp2 : GenerateContentResponse) :
  Js.truthy (Js.trim (transcript s)) = true →
  gateway w (GeminiService.visualPromptRequest (transcript s) (style s))
    = Resolved resp1 →
  gateway w (GeminiService.doodleRequest (GeminiService.visualPromptOf resp1))
    = Resolved resp2 →
  let r := run w ms (handleGenerateDoodle s) s in
  let newEntry := entry_of w s resp1 resp2 in
  let before := meanwhile ms 2 (generating s) in
  result r = Resolved tt
  ∧ transcript (final r) = EmptyString
  ∧ currentDoodle (final r) = Some newEntry
  ∧ history (final r) = newEntry :: history before
  ∧ history (final r) !! 0 = Some newEntry
  ∧ DoodleEntry.style newEntry = style s
  ∧ DoodleEntry.imageUrl newEntry
    = GeminiService.firstInlineImage (GeminiService.responseParts resp2)
  ∧ (DoodleEntry.imageUrl newEntry ≠ EmptyString ↔
     ∃ p, p ∈ GeminiService.responseParts resp2 ∧ is_Some (inlineData p))
  ∧ isGenerating (final r) = false
  ∧ (∀ c cs ct ps, candidates resp2 = Some (c :: cs) → content c = Some ct →
       parts ct = Some ps →
       (∀ pre part post inline,
          ps = pre ++ part :: post →
          Forall (fun p => inlineData p = None) pre →
          inlineData part = Some inline →
          DoodleEntry.imageUrl newEntry
          = match data inline with
            | Some d => "data:image/png;base64," +:+ d
            | None => "data:image/png;base64,undefined"
            end)
       ∧ (Forall (fun p => inlineData p = None) ps →
          DoodleEntry.imageUrl newEntry = EmptyString))
  ∧ (candidates resp2 = None ∨ candidates resp2 = Some [] →
     DoodleEntry.imageUrl newEntry = EmptyString)
  ∧ (∀ c cs, candidates resp2 = Some (c :: cs) →
       content c = None ∨ (∃ ct, content c = Some ct ∧ parts ct = None) →
       DoodleEntry.imageUrl newEntry = EmptyString).
Proof.
  intros Ht H1 H2 r newEntry before. subst r.
  rewrite (run_generate_ok s resp1 resp2 Ht H1 H2).
  split_and!; try reflexivity.
  - apply firstInlineImage_nonempty.
  - intros c cs ct ps Hc Hct Hps.
    assert (GeminiService.responseParts resp2 = ps) as Hparts.
    { unfold GeminiService.responseParts. rewrite Hc. cbn. rewrite Hct. cbn.
      by rewrite Hps. }
    subst newEntry. cbn [entry_of DoodleEntry.imageUrl]. rewrite Hparts.
    split.
    + intros pre part post inline -> Hpre Hin.
      rewrite firstInlineImage_skip by done. cbn [GeminiService.firstInlineImage].
      rewrite Hin. by destruct (data inline).
    + intros Hall. rewrite <- (app_nil_r ps). by rewrite firstInlineImage_skip.
  - intros Hc. subst newEntry. cbn [entry_of DoodleEntry.imageUrl].
    unfold GeminiService.responseParts. by destruct Hc as [-> | ->].
  - intros c cs Hc Hct. subst newEntry. cbn [entry_of DoodleEntry.imageUrl].
    unfold GeminiService.responseParts. rewrite Hc. cbn.
    destruct Hct as [-> | (ct & -> & Hps)]; [done|]. cbn. by rewrite Hps.
Qed.


Lemma run_deleteEntry (s : AppState) (id : string) :
  run w ms (deleteEntry s id) s =
  mkRun
    (if decide (DoodleEntry.id <$> currentDoodle s = Some id)
     then setCurrentDoodle None (setHistory (removeById id) s)
     else setHistory (removeById id) s)
    [] (Resolved tt).
Proof. unfold deleteEntry. cbn. by destruct (decide _). Qed.

Lemma history_deleteEntry (s : AppState) (id : string) :
  history (final (run w ms (deleteEntry s id) s)) = removeById id (history s).
Proof. rewrite run_deleteEntry. by destruct (decide _). Qed.

Lemma removeById_length (id : string) (h : list DoodleEntry.t) :
  length (removeById id h)
  + length (filter (fun e => DoodleEntry.id e = id) h) = length h.
Proof.
  unfold removeById. induction h as [|e h IH]; [done|].
  destruct (decide (DoodleEntry.id e = id)) as [He|He].
  - rewrite filter_cons_False, filter_cons_True by naive_solver. simpl. lia.
  - rewrite filter_cons_True, filter_cons_False by naive_solver. simpl. lia.
Qed.

Lemma removeById_absent (id : string) (h : list DoodleEntry.t) :
  (∀ e, e ∈ h → DoodleEntry.id e ≠ id) → removeById id h = h.
Proof.
  unfold removeById. induction h as [|e h IH]; intros Hall; [done|].
  rewrite filter_cons_True by (apply Hall; left).
  f_equal. apply IH. intros e' He'. apply Hall. by right.
Qed.

(** C6, as the code has it: [remove(id)] keeps exactly the entries whose id
    differs, in the order they were in, so the size goes down by the number
    of entries that have the id: by one when exactly one entry has it, by
    nothing (the history is unchanged) when none has. *)
Theorem remove_spec (s : AppState) (id : string) :
  let h := history s in
  let h' := history (final (run w ms (deleteEntry s id) s)) in
  let k := length (filter (fun e => DoodleEntry.id e = id) h) in
  h' = removeById id h
  ∧ length h' + k = length h
  ∧ ((∃ e, e ∈ h ∧ DoodleEntry.id e = id) → (1 ≤ k)%nat)
  ∧ (k = 1 → length h' = length h - 1)
  ∧ sublist h' h
  ∧ (∀ e, e ∈ h' ↔ e ∈ h ∧ DoodleEntry.id e ≠ id)
  ∧ ((∀ e, e ∈ h → DoodleEntry.id e ≠ id) → h' = h).
Proof.
  intros h h' k. subst h'. rewrite history_deleteEntry. fold h.
  pose proof (removeById_length id h) as Hlen. fold k in Hlen.
  split_and!; try done.
  - intros (e & He & Hid). subst k.
    assert (e ∈ filter (fun e => DoodleEntry.id e = id) h) as Hin
      by by apply list_elem_of_filter.
    destruct (filter _ h); [by apply elem_of_nil in Hin|simpl; lia].
  - intros Hk. lia.
  - apply sublist_filter.
  - intros e. unfold removeById. rewrite list_elem_of_filter. tauto.
  - apply removeById_absent.
Qed.

(** C9: deleting by id clears the current-entry reference when it points to
    an entry with that id, and leaves it as it is when it points to an entry
    with another id or to none. *)
Theorem delete_current (s : AppState) (id : string) :
  let r := run w ms (deleteEntry s id) s in
  (∀ e, currentDoodle s = Some e → DoodleEntry.id e = id →
        currentDoodle (final r) = None)
  ∧ (∀ e, currentDoodle s = Some e → DoodleEntry.id e ≠ id →
          currentDoodle (final r) = Some e)
  ∧ (currentDoodle s = None → currentDoodle (final r) = None)
  ∧ result r = Resolved tt.
Proof.
  intros r. subst r. rewrite run_deleteEntry. split_and!.
  - intros e He Hid. rewrite He. simpl. subst id. by rewrite decide_True.
  - intros e He Hid. rewrite He. simpl. rewrite decide_False by congruence.
    simpl. done.
  - intros He. rewrite He. simpl. done.
  - done.
Qed.

(** C10: [remove(id)] removes every entry that has the id, not the first
    only: no entry of the resulting history has it, and every entry with
    another id stays. Ids can repeat, being the clock value at creation and
    never compared: two generations that read the same clock value leave two
    entries with one id, and one deletion removes both. *)
Theorem delete_removes_all (s : AppState) (id : string) :
  let h' := history (final (run w ms (deleteEntry s id) s)) in
  (∀ e, e ∈ h' → DoodleEntry.id e ≠ id)
  ∧ (∀ e, e ∈ history s → DoodleEntry.id e ≠ id → e ∈ h')
  ∧ (DoodleEntry.id <$> history Sample.twice
       = [Js.toString (Date_now Sample.clock0); Js.toString (Date_now Sample.clock0)]
     ∧ history (final (run w ms (deleteEntry Sample.twice
                                   (Js.toString (Date_now Sample.clock0)))
                         Sample.twice)) = []).
Proof.
  intros h'. subst h'. rewrite !history_deleteEntry. split_and!.
  - intros e. unfold removeById. rewrite list_elem_of_filter. tauto.
  - intros e He Hid. unfold removeById. rewrite list_elem_of_filter. tauto.
  - by vm_compute.
  - by vm_compute.
Qed.


End InWorld.

(** ** Insertion *)

(** C7: [add] puts the entry at index 0 and moves every earlier entry one
    place down, in the order they were in; adding e1, e2, e3 to the empty
    history gives [e3; e2; e1]. *)
Theorem add_places_first (newEntry : DoodleEntry.t) (prev : list DoodleEntry.t) :
  prepend newEntry prev !! 0 = Some newEntry
  ∧ (∀ i, prepend newEntry prev !! S i = prev !! i)
  ∧ sublist prev (prepend newEntry prev)
  ∧ length (prepend newEntry prev) = S (length prev)
  ∧ (∀ e1 e2 e3, prepend e3 (prepend e2 (prepend e1 [])) = [e3; e2; e1])
  ∧ (∀ s, history (setHistory (prepend newEntry) s) = newEntry :: history s).
Proof.
  unfold prepend. split_and!; try done. by apply sublist_cons.
Qed.

(** ** The archive exporter *)

(** *** Base64 *)



Section Base64.

Import Base64Codec.





















End Base64.

(** *** Splitting an image URL *)



(** *** Paths *)

Lemma ends_with_slash_cons (a : ascii) (s : string) :
  s ≠ EmptyString → ends_with_slash (String a s) = ends_with_slash s.
Proof. by destruct s. Qed.

Lemma append_nonempty (s t : string) : t ≠ EmptyString → s +:+ t ≠ EmptyString.
Proof. by destruct s, t. Qed.

Lemma ends_with_slash_append (s t : string) :
  t ≠ EmptyString → ends_with_slash (s +:+ t) = ends_with_slash t.
Proof.
  intros Ht. induction s as [|a s IH]; [done|].
  change (String a s +:+ t) with (String a (s +:+ t)).
  rewrite ends_with_slash_cons by by apply append_nonempty. done.
Qed.

Lemma forceTrailingSlash_ends (p : string) :
  ends_with_slash (forceTrailingSlash p) = true.
Proof.
  unfold forceTrailingSlash. destruct (ends_with_slash p) eqn:E; [done|].
  by rewrite ends_with_slash_append.
Qed.

Lemma drop_last_ends (s : string) :
  ends_with_slash s = true → s = drop_last s +:+ "/".
Proof.
  induction s as [|c s IH]; [done|]. destruct s as [|c' s].
  - cbn. intros ->%Ascii.eqb_eq. done.
  - intros H. rewrite ends_with_slash_cons in H by done.
    change (String c (String c' s) = String c (drop_last (String c' s) +:+ "/")).
    by rewrite <- IH.
Qed.

Lemma length_drop_last (s : string) :
  String.length (drop_last s) = String.length s - 1.
Proof.
  induction s as [|c s IH]; [done|]. destruct s as [|c' s]; [done|].
  change (S (String.length (drop_last (String c' s)))
          = S (String.length (String c' s)) - 1).
  rewrite IH. simpl. lia.
Qed.

Lemma length_forceTrailingSlash (s : string) :
  (String.length (forceTrailingSlash s) ≤ S (String.length s))%nat.
Proof.
  unfold forceTrailingSlash. destruct (ends_with_slash s); [lia|].
  rewrite length_append. simpl. lia.
Qed.

Lemma slash_free_cons (c : ascii) (s : string) :
  slash_free (String c s) = negb (Ascii.eqb c "/") && slash_free s.
Proof. done. Qed.

Lemma slash_free_append (s t : string) :
  slash_free (s +:+ t) = slash_free s && slash_free t.
Proof.
  induction s as [|c s IH]; [done|].
  change (String c s +:+ t) with (String c (s +:+ t)).
  by rewrite !slash_free_cons, IH, andb_assoc.
Qed.

Lemma slash_free_ends (s : string) : slash_free s = true → ends_with_slash s = false.
Proof.
  induction s as [|c s IH]; [done|]. rewrite slash_free_cons.
  intros H. apply andb_true_iff in H as [Hc Hs].
  destruct s; [by apply negb_true_iff in Hc|]. by apply IH.
Qed.

Lemma before_last_slash_Some (s p : string) :
  before_last_slash s = Some p →
  ∃ rest, s = p +:+ "/" +:+ rest ∧ slash_free rest = true.
Proof.
  revert p. induction s as [|c s IH]; intros p; [done|]. cbn [before_last_slash].
  destruct (before_last_slash s) as [p'|] eqn:E.
  - intros [= <-]. destruct (IH p' eq_refl) as (rest & -> & Hr). by exists rest.
  - destruct (Ascii.eqb_spec c "/") as [->|]; [|done]. intros [= <-].
    exists s. split; [done|].
    clear IH. induction s as [|a s IH]; [done|]. cbn [before_last_slash] in E.
    destruct (before_last_slash s); [done|].
    destruct (Ascii.eqb_spec a "/") as [->|Hne]; [done|].
    rewrite slash_free_cons. apply andb_true_iff. split.
    + by apply negb_true_iff, Ascii.eqb_neq.
    + by apply IH.
Qed.

Lemma before_last_slash_free (s : string) :
  slash_free s = true → before_last_slash s = None.
Proof.
  induction s as [|c s IH]; [done|]. rewrite slash_free_cons. cbn.
  intros H. apply andb_true_iff in H as [Hc Hs]. rewrite IH by done.
  apply negb_true_iff in Hc. by rewrite Hc.
Qed.

Lemma before_last_slash_append (s t : string) :
  before_last_slash (s +:+ t) =
  match before_last_slash t with
  | Some p => Some (s +:+ p)
  | None => before_last_slash s
  end.
Proof.
  induction s as [|c s IH].
  - change (EmptyString +:+ t) with t. by destruct (before_last_slash t).
  - change (String c s +:+ t) with (String c (s +:+ t)).
    cbn [before_last_slash]. rewrite IH. by destruct (before_last_slash t).
Qed.

(** The folder of a file that is directly in [root/] is [root]. *)
Lemma parentFolder_in (root name : string) :
  slash_free name = true → name ≠ EmptyString →
  parentFolder (root +:+ "/" +:+ name) = root.
Proof.
  intros Hf Hne. unfold parentFolder.
  assert (ends_with_slash (root +:+ "/" +:+ name) = false) as ->.
  { rewrite ends_with_slash_append by by apply append_nonempty.
    rewrite ends_with_slash_append by done. by apply slash_free_ends. }
  rewrite before_last_slash_append.
  change ("/" +:+ name) with (String "/" name). cbn [before_last_slash].
  rewrite before_last_slash_free by done. cbn. by rewrite append_empty_r.
Qed.

(** The parent of a folder has a shorter name than the folder. *)
Lemma parentFolder_length (name : string) :
  Js.truthy (parentFolder (forceTrailingSlash name)) = true →
  (String.length (parentFolder (forceTrailingSlash name)) < String.length name)%nat.
Proof.
  unfold parentFolder. rewrite forceTrailingSlash_ends.
  destruct (before_last_slash _) as [p|] eqn:E; [|done]. simpl. intros _.
  apply before_last_slash_Some in E as (rest & E & _).
  apply (f_equal String.length) in E.
  rewrite length_drop_last, !length_append in E.
  pose proof (length_forceTrailingSlash name). simpl in E. lia.
Qed.

Lemma starts_with_trans (a b c : string) :
  starts_with a b → starts_with b c → starts_with a c.
Proof. intros [r1 ->] [r2 ->]. exists (r1 +:+ r2). apply append_assoc. Qed.

(** The folder a path is in is written as a prefix of the path. *)
Lemma starts_with_parentFolder (path : string) :
  Js.truthy (parentFolder path) = true →
  starts_with (forceTrailingSlash (parentFolder path)) path.
Proof.
  unfold parentFolder.
  assert (∃ tail, path = (if ends_with_slash path then drop_last path else path)
                         +:+ tail) as [tail Htail].
  { destruct (ends_with_slash path) eqn:E.
    - exists "/". by apply drop_last_ends.
    - exists EmptyString. by rewrite append_empty_r. }
  destruct (before_last_slash _) as [p|] eqn:E; [|done]. simpl. intros _.
  apply before_last_slash_Some in E as (rest & E & _).
  rewrite E in Htail. clear E. subst path. unfold forceTrailingSlash.
  destruct (ends_with_slash p) eqn:Hp.
  - eexists. rewrite !append_assoc. reflexivity.
  - exists (rest +:+ tail). by rewrite !append_assoc.
Qed.

(** *** The archive's folders *)

(** [folderAdd] does not depend on its fuel, once the fuel is the length of
    the name or more. *)
Lemma folderAdd_fuel (n m : nat) (name : string) (z : JSZip) :
  (String.length name ≤ n)%nat → (String.length name ≤ m)%nat →
  folderAdd n name z = folderAdd m name z.
Proof.
  revert m name. induction n as [|n IH]; intros [|m] name Hn Hm; cbn [folderAdd].
  - done.
  - destruct (z !! forceTrailingSlash name); [done|].
    destruct (Js.truthy _) eqn:Ht; [|done].
    apply parentFolder_length in Ht. lia.
  - destruct (z !! forceTrailingSlash name); [done|].
    destruct (Js.truthy _) eqn:Ht; [|done].
    apply parentFolder_length in Ht. lia.
  - destruct (z !! forceTrailingSlash name); [done|].
    destruct (Js.truthy _) eqn:Ht; [|done].
    apply parentFolder_length in Ht. rewrite (IH m) by lia. done.
Qed.

(** A folder that is there is not added again. *)
Lemma folderAdd_present (fuel : nat) (name : string) (z : JSZip) :
  is_Some (z !! forceTrailingSlash name) → folderAdd fuel name z = z.
Proof. intros [d Hd]. destruct fuel; cbn [folderAdd]; by rewrite Hd. Qed.

(** [folderAdd] leaves the paths of files alone. *)
Lemma folderAdd_lookup_file (fuel : nat) (name : string) (z : JSZip) (q : string) :
  ends_with_slash q = false → folderAdd fuel name z !! q = z !! q.
Proof.
  intros Hq. revert name. induction fuel as [|fuel IH]; intros name; cbn [folderAdd].
  - destruct (z !! forceTrailingSlash name); [done|].
    apply lookup_insert_ne. intros <-. by rewrite forceTrailingSlash_ends in Hq.
  - destruct (z !! forceTrailingSlash name); [done|].
    rewrite lookup_insert_ne
      by (intros <-; by rewrite forceTrailingSlash_ends in Hq).
    destruct (Js.truthy _); [apply IH|done].
Qed.

(** [folderAdd] leaves what is there alone. *)
Lemma folderAdd_lookup_old (fuel : nat) (name : string) (z : JSZip) (q : string) :
  is_Some (z !! q) → folderAdd fuel name z !! q = z !! q.
Proof.
  intros Hq. revert name. induction fuel as [|fuel IH]; intros name; cbn [folderAdd].
  - destruct (z !! forceTrailingSlash name) eqn:E; [done|].
    apply lookup_insert_ne. intros <-. rewrite E in Hq. by destruct Hq.
  - destruct (z !! forceTrailingSlash name) eqn:E; [done|].
    rewrite lookup_insert_ne by (intros <-; rewrite E in Hq; by destruct Hq).
    destruct (Js.truthy _); [apply IH|done].
Qed.

(** What [folderAdd] adds is folders on the way to [name]. *)
Lemma folderAdd_lookup_new (fuel : nat) (name : string) (z : JSZip) (q : string) :
  z !! q = None → is_Some (folderAdd fuel name z !! q) →
  folderAdd fuel name z !! q = Some Folder
  ∧ ends_with_slash q = true
  ∧ starts_with q (forceTrailingSlash name).
Proof.
  intros Hq. revert name. induction fuel as [|fuel IH]; intros name; cbn [folderAdd].
  - destruct (z !! forceTrailingSlash name) eqn:E.
    + rewrite Hq. by intros [? ?].
    + destruct (decide (forceTrailingSlash name = q)) as [<-|Hne].
      * intros _. rewrite lookup_insert_eq, forceTrailingSlash_ends.
        split_and!; try done. exists EmptyString. by rewrite append_empty_r.
      * rewrite lookup_insert_ne, Hq by done. by intros [? ?].
  - destruct (z !! forceTrailingSlash name) eqn:E.
    + rewrite Hq. by intros [? ?].
    + destruct (decide (forceTrailingSlash name = q)) as [<-|Hne].
      * intros _. rewrite lookup_insert_eq, forceTrailingSlash_ends.
        split_and!; try done. exists EmptyString. by rewrite append_empty_r.
      * rewrite lookup_insert_ne by done.
        destruct (Js.truthy _) eqn:Ht; [|rewrite Hq; by intros [? ?]].
        intros H. destruct (IH _ H) as (Hf & He & Hs). split_and!; try done.
        eapply starts_with_trans; [exact Hs|]. by apply starts_with_parentFolder.
Qed.

(** *** Writing a file *)

Lemma fileAdd_lookup_eq (p : string) (d : FileData) (z : JSZip) :
  fileAdd p d z !! p = Some d.
Proof. unfold fileAdd. apply lookup_insert_eq. Qed.

Lemma fileAdd_lookup_file (p q : string) (d : FileData) (z : JSZip) :
  q ≠ p → ends_with_slash q = false → fileAdd p d z !! q = z !! q.
Proof.
  intros Hne Hq. unfold fileAdd. rewrite lookup_insert_ne by done.
  destruct (Js.truthy _); [by apply folderAdd_lookup_file|done].
Qed.

Lemma fileAdd_lookup_old (p q : string) (d : FileData) (z : JSZip) :
  q ≠ p → is_Some (z !! q) → fileAdd p d z !! q = z !! q.
Proof.
  intros Hne Hq. unfold fileAdd. rewrite lookup_insert_ne by done.
  destruct (Js.truthy _); [by apply folderAdd_lookup_old|done].
Qed.

(** Besides the file, [fileAdd] adds folders on the way to it. *)
Lemma fileAdd_lookup_new (p q : string) (d : FileData) (z : JSZip) :
  q ≠ p → z !! q = None → is_Some (fileAdd p d z !! q) →
  fileAdd p d z !! q = Some Folder ∧ ends_with_slash q = true ∧ starts_with q p.
Proof.
  intros Hne Hq. unfold fileAdd. rewrite lookup_insert_ne by done.
  destruct (Js.truthy _) eqn:Ht; [|rewrite Hq; by intros [? ?]].
  intros H. destruct (folderAdd_lookup_new _ _ _ _ Hq H) as (Hf & He & Hs).
  split_and!; try done.
  eapply starts_with_trans; [exact Hs|]. by apply starts_with_parentFolder.
Qed.

(** A file directly in a folder that is there: only the file is written. *)
Lemma fileAdd_in (root name : string) (d : FileData) (z : JSZip) :
  slash_free name = true → name ≠ EmptyString →
  is_Some (z !! forceTrailingSlash root) →
  fileAdd (root +:+ "/" +:+ name) d z = <[root +:+ "/" +:+ name := d]> z.
Proof.
  intros Hf Hne Hroot. unfold fileAdd. rewrite parentFolder_in by done.
  destruct (Js.truthy root); [|done]. by rewrite folderAdd_present.
Qed.

(** *** File names *)

Lemma transcript_path_inj (e e' : DoodleEntry.t) :
  transcript_path e = transcript_path e' → DoodleEntry.id e = DoodleEntry.id e'.
Proof.
  unfold transcript_path, fileNameBase. intros H.
  do 2 apply (inj (String.app _)) in H. apply append_inj_l in H.
  by apply (inj (String.app _)) in H.
Qed.

Lemma image_path_inj (e e' : DoodleEntry.t) :
  image_path e = image_path e' → DoodleEntry.id e = DoodleEntry.id e'.
Proof.
  unfold image_path, fileNameBase. intros H.
  do 2 apply (inj (String.app _)) in H. apply append_inj_l in H.
  by apply (inj (String.app _)) in H.
Qed.

Lemma transcript_path_image_path (e e' : DoodleEntry.t) :
  transcript_path e ≠ image_path e'.
Proof. done. Qed.

(** The paths of the files are no folder names. *)
Lemma transcript_path_file (e : DoodleEntry.t) :
  ends_with_slash (transcript_path e) = false.
Proof.
  unfold transcript_path.
  rewrite ends_with_slash_append by by apply append_nonempty, append_nonempty.
  rewrite ends_with_slash_append by by apply append_nonempty.
  by rewrite ends_with_slash_append.
Qed.

Lemma image_path_file (e : DoodleEntry.t) : ends_with_slash (image_path e) = false.
Proof.
  unfold image_path.
  rewrite ends_with_slash_append by by apply append_nonempty, append_nonempty.
  rewrite ends_with_slash_append by by apply append_nonempty.
  by rewrite ends_with_slash_append.
Qed.

(** *** The loop *)

Lemma export_loop_snoc (h : list DoodleEntry.t) (e : DoodleEntry.t) :
  export_loop (h ++ [e]) = export_entry (export_loop h) e.
Proof. unfold export_loop. by rewrite foldl_snoc. Qed.

Lemma export_loop_app (h1 h2 : list DoodleEntry.t) :
  export_loop (h1 ++ h2) = foldl export_entry (export_loop h1) h2.
Proof. unfold export_loop. by rewrite foldl_app. Qed.

Lemma foldl_export_metadata (h : list DoodleEntry.t) (acc : JSZip * list json) :
  (foldl export_entry acc h).2 = acc.2 ++ (metadata_of <$> h).
Proof.
  revert acc. induction h as [|e h IH]; intros acc; simpl.
  - by rewrite app_nil_r.
  - rewrite IH. simpl. by rewrite <- app_assoc.
Qed.

Lemma export_loop_metadata (h : list DoodleEntry.t) :
  (export_loop h).2 = metadata_of <$> h.
Proof. unfold export_loop. by rewrite foldl_export_metadata. Qed.

(** One turn of the loop, by the two files it writes. *)
Lemma export_entry_files_eq (acc : JSZip * list json) (e : DoodleEntry.t) :
  (export_entry acc e).1 =
  let zip := fileAdd (transcript_path e) (Text (DoodleEntry.transcript e)) acc.1 in
  match base64Data e with
  | Some payload =>
      if Js.truthy payload then fileAdd (image_path e) (Base64 payload) zip else zip
  | None => zip
  end.
Proof. reflexivity. Qed.

(** One turn of the loop writes the transcript file. *)
Lemma export_entry_transcript (acc : JSZip * list json) (e : DoodleEntry.t) :
  (export_entry acc e).1 !! transcript_path e = Some (Text (DoodleEntry.transcript e)).
Proof.
  rewrite export_entry_files_eq. cbv zeta.
  destruct (base64Data e) as [p|]; [destruct (Js.truthy p)|];
    try apply fileAdd_lookup_eq.
  rewrite fileAdd_lookup_file
    by (apply transcript_path_image_path || apply transcript_path_file).
  apply fileAdd_lookup_eq.
Qed.

(** One turn of the loop writes the image file when the segment after the
    first comma is there and not empty, and leaves that path alone if not. *)
Lemma export_entry_image (acc : JSZip * list json) (e : DoodleEntry.t) :
  (export_entry acc e).1 !! image_path e =
  match base64Data e with
  | Some payload =>
      if Js.truthy payload then Some (Base64 payload) else acc.1 !! image_path e
  | None => acc.1 !! image_path e
  end.
Proof.
  assert (image_path e ≠ transcript_path e) as Hne
    by (intros H; symmetry in H; by apply transcript_path_image_path in H).
  rewrite export_entry_files_eq. cbv zeta.
  destruct (base64Data e) as [p|]; [destruct (Js.truthy p)|].
  - apply fileAdd_lookup_eq.
  - apply fileAdd_lookup_file; [done|apply image_path_file].
  - apply fileAdd_lookup_file; [done|apply image_path_file].
Qed.

(** One turn of the loop touches no other file, and nothing that is there. *)
Lemma export_entry_frame (acc : JSZip * list json) (e : DoodleEntry.t) (path : string) :
  path ≠ transcript_path e → path ≠ image_path e →
  ends_with_slash path = false ∨ is_Some (acc.1 !! path) →
  (export_entry acc e).1 !! path = acc.1 !! path.
Proof.
  intros Ht Hi Hpath. rewrite export_entry_files_eq. cbv zeta.
  assert (fileAdd (transcript_path e) (Text (DoodleEntry.transcript e)) acc.1 !! path
          = acc.1 !! path) as Hfirst.
  { destruct Hpath; [by apply fileAdd_lookup_file|by apply fileAdd_lookup_old]. }
  destruct (base64Data e) as [p|]; [destruct (Js.truthy p)|]; try done.
  rewrite <- Hfirst.
  destruct Hpath; [by apply fileAdd_lookup_file|].
  apply fileAdd_lookup_old; [done|]. by rewrite Hfirst.
Qed.

(** What one turn of the loop adds besides the two files is folders on the
    way to them. *)
Lemma export_entry_new (acc : JSZip * list json) (e : DoodleEntry.t) (path : string) :
  path ≠ transcript_path e → path ≠ image_path e →
  acc.1 !! path = None → is_Some ((export_entry acc e).1 !! path) →
  (export_entry acc e).1 !! path = Some Folder
  ∧ ends_with_slash path = true
  ∧ (starts_with path (transcript_path e) ∨ starts_with path (image_path e)).
Proof.
  intros Ht Hi Hacc. rewrite export_entry_files_eq. cbv zeta.
  set (zip := fileAdd (transcript_path e) (Text (DoodleEntry.transcript e)) acc.1).
  assert (is_Some (zip !! path) →
          zip !! path = Some Folder ∧ ends_with_slash path = true
          ∧ starts_with path (transcript_path e)) as Hfirst
    by by apply fileAdd_lookup_new.
  destruct (base64Data e) as [p|]; [destruct (Js.truthy p)|];
    try (intros H; destruct (Hfirst H) as (? & ? & ?); by split_and!; [| |left]).
  destruct (zip !! path) as [d|] eqn:Hz.
  - destruct Hfirst as (Hd & He & Hs); [done|]. intros _.
    rewrite fileAdd_lookup_old by by rewrite ?Hz.
    rewrite Hz. split_and!; [done|done|by left].
  - intros H. destruct (fileAdd_lookup_new _ _ _ _ Hi Hz H) as (? & ? & ?).
    split_and!; [done|done|by right].
Qed.

Lemma foldl_export_frame (h : list DoodleEntry.t) (acc : JSZip * list json)
    (path : string) :
  (∀ e, e ∈ h → path ≠ transcript_path e ∧ path ≠ image_path e) →
  ends_with_slash path = false ∨ is_Some (acc.1 !! path) →
  (foldl export_entry acc h).1 !! path = acc.1 !! path.
Proof.
  revert acc. induction h as [|e h IH]; intros acc Hall Hpath; [done|]. simpl.
  assert ((export_entry acc e).1 !! path = acc.1 !! path) as He
    by (apply export_entry_frame; [apply Hall; left..|done]).
  rewrite IH, He; [done|intros e' He'; apply Hall; by right|].
  destruct Hpath; [by left|right; by rewrite He].
Qed.

(** The paths of an entry are not touched by entries with other ids. *)
Lemma foldl_export_other_ids (h : list DoodleEntry.t) (acc : JSZip * list json)
    (e : DoodleEntry.t) :
  (∀ e', e' ∈ h → DoodleEntry.id e' ≠ DoodleEntry.id e) →
  (foldl export_entry acc h).1 !! transcript_path e = acc.1 !! transcript_path e
  ∧ (foldl export_entry acc h).1 !! image_path e = acc.1 !! image_path e.
Proof.
  intros Hall. split; apply foldl_export_frame;
    try (left; apply transcript_path_file || apply image_path_file);
    intros e' He'; split.
  - intros H%transcript_path_inj. by apply (Hall e').
  - apply transcript_path_image_path.
  - intros H. symmetry in H. by apply transcript_path_image_path in H.
  - intros H%image_path_inj. by apply (Hall e').
Qed.

(** A file of the archive is never taken out again. *)
Lemma foldl_export_is_Some (h : list DoodleEntry.t) (acc : JSZip * list json)
    (path : string) :
  is_Some (acc.1 !! path) → is_Some ((foldl export_entry acc h).1 !! path).
Proof.
  revert acc. induction h as [|e h IH]; intros acc Hacc; [done|]. simpl.
  apply IH.
  destruct (decide (path = transcript_path e)) as [->|Ht].
  { by rewrite export_entry_transcript. }
  destruct (decide (path = image_path e)) as [->|Hi].
  { rewrite export_entry_image.
    destruct (base64Data e) as [p|]; [destruct (Js.truthy p)|]; done. }
  rewrite export_entry_frame by (done || by right). done.
Qed.

Lemma zip_file_index (d : FileData) (z : JSZip) :
  zip_file "index.json" d z = <["index.json" := d]> z.
Proof. reflexivity. Qed.

Lemma assemble_lookup (h : list DoodleEntry.t) (iso path : string) :
  path ≠ "index.json" → assemble h iso !! path = (export_loop h).1 !! path.
Proof.
  intros H. unfold assemble. rewrite zip_file_index. by rewrite lookup_insert_ne.
Qed.

Lemma assemble_manifest (h : list DoodleEntry.t) (iso : string) :
  assemble h iso !! "index.json"
  = Some (Stringified (manifest (metadata_of <$> h) iso)).
Proof.
  unfold assemble. rewrite zip_file_index.
  by rewrite lookup_insert_eq, export_loop_metadata.
Qed.

(** An export of a non-empty history whose archive the zip library turns
    into [blob], as one equation. *)
Lemma run_export (w : World) (ms : Meanwhile) (s : AppState) :
  history s ≠ [] →
  run w ms (handleExportArchive s) s =
  let zip := assemble (history s) (toISOString (clock w)) in
  let before := meanwhile ms 1 (setError None (setIsExporting true s)) in
  match zipper w zip with
  | Resolved blob =>
      mkRun (setIsExporting false before)
        [readClock; generateAsync zip; readClock;
         download (archive_name (toISOString (clock w))) blob]
        (Resolved tt)
  | Rejected err =>
      mkRun (setIsExporting false (setError (Some export_error) before))
        [readClock; generateAsync zip; console_error ("Export failed: " +:+ err)]
        (Resolved tt)
  end.
Proof.
  intros Hne. unfold handleExportArchive.
  rewrite decide_False by by destruct (history s).
  cbn -[assemble archive_name meanwhile String.append].
  destruct (zipper w _); by destruct ms.
Qed.

(** The archive before the loop: the two folders. *)
Lemma initial_zip :
  export_loop [] = (<["transcripts/" := Folder]> (<["doodles/" := Folder]> ∅), []).
Proof. reflexivity. Qed.

Lemma initial_zip_lookup (e : DoodleEntry.t) :
  (export_loop []).1 !! transcript_path e = None
  ∧ (export_loop []).1 !! image_path e = None.
Proof.
  rewrite initial_zip. cbn [fst].
  by rewrite !lookup_insert_ne, !lookup_empty by done.
Qed.

Lemma slash_free_file_name (e : DoodleEntry.t) (ext : string) :
  slash_free (DoodleEntry.id e) = true → slash_free ext = true →
  slash_free (fileNameBase e +:+ ext) = true.
Proof.
  intros Hid Hext. unfold fileNameBase. by rewrite !slash_free_append, Hid, Hext.
Qed.

(** The two folders are there all along the loop. *)
Lemma export_loop_folder (h : list DoodleEntry.t) (path : string) :
  path = "transcripts/" ∨ path = "doodles/" →
  (export_loop h).1 !! path = Some Folder.
Proof.
  intros Hpath.
  assert ((export_loop []).1 !! path = Some Folder) as Hinit.
  { rewrite initial_zip. cbn [fst]. destruct Hpath as [-> | ->].
    - apply lookup_insert_eq.
    - rewrite lookup_insert_ne by done. apply lookup_insert_eq. }
  change (export_loop h) with (foldl export_entry (export_loop []) h).
  rewrite foldl_export_frame; [done| |right; by rewrite Hinit].
  intros e _. by destruct Hpath as [-> | ->].
Qed.

Lemma export_loop_folders (h : list DoodleEntry.t) :
  is_Some ((export_loop h).1 !! "transcripts/")
  ∧ is_Some ((export_loop h).1 !! "doodles/").
Proof. rewrite !export_loop_folder by tauto. done. Qed.

(** For an id without slash, one turn of the loop writes the two files and
    nothing else. *)
Lemma export_entry_slash_free (h : list DoodleEntry.t) (e : DoodleEntry.t)
    (path : string) :
  slash_free (DoodleEntry.id e) = true →
  path ≠ transcript_path e → path ≠ image_path e →
  (export_entry (export_loop h) e).1 !! path = (export_loop h).1 !! path.
Proof.
  intros Hid Ht Hi. rewrite export_entry_files_eq. cbv zeta.
  destruct (export_loop_folders h) as [Htf Hdf].
  unfold transcript_path, image_path in *.
  rewrite (fileAdd_in "transcripts") by
    (done || by apply slash_free_file_name || by apply append_nonempty).
  destruct (base64Data e) as [p|]; [destruct (Js.truthy p)|];
    rewrite ?(fileAdd_in "doodles") by
      (by apply slash_free_file_name || by apply append_nonempty
       || by rewrite lookup_insert_ne);
    by rewrite ?lookup_insert_ne by done.
Qed.






Example decode_samples :
  Base64Codec.btoa "ABC" = "QUJD"
  ∧ Base64Codec.decode "QUJD" = Resolved [65; 66; 67]%Z
  ∧ Base64Codec.decode "QUI=" = Resolved [65; 66]%Z
  ∧ Base64Codec.decode "QUJ" = Rejected "Invalid base64 input, bad content length."
  ∧ Base64Codec.decode "data:image/png;base64,QUJD"
    = Rejected "Invalid base64 input, it looks like a data url.".
Proof. split_and!; vm_compute; reflexivity. Qed.

(** An archive of one entry whose id has a slash: the files are in folders
    of their own, which are written too. *)
Example export_nested_sample :
  let e := Sample.entry "a/b" "data:image/png;base64,AAAA" in
  dom (assemble [e] "2026-11-02T00:00:00.000Z")
  = {["doodles/"; "transcripts/"; "transcripts/doodle-a/";
      "transcripts/doodle-a/b.txt"; "doodles/doodle-a/"; "doodles/doodle-a/b.png";
      "index.json"]}.
Proof. cbv zeta. vm_compute. reflexivity. Qed.

(** An archive of two entries, the second without an image payload. *)
Example export_sample :
  let e := Sample.entry "4" EmptyString in
  let zip := assemble [Sample.e1; e] "2026-11-02T00:00:00.000Z" in
  zip !! "doodles/doodle-1.png" = Some (Base64 "AAAA")
  ∧ zip !! "transcripts/doodle-1.txt" = Some (Text "day 1")
  ∧ zip !! "doodles/doodle-4.png" = None
  ∧ zip !! "transcripts/doodle-4.txt" = Some (Text "day 4")
  ∧ zip !! "doodles/" = Some Folder
  ∧ dom zip = {["doodles/"; "transcripts/"; "index.json"; "doodles/doodle-1.png";
               "transcripts/doodle-1.txt"; "transcripts/doodle-4.txt"]}.
Proof. cbv zeta. split_and!; vm_compute; reflexivity. Qed.

(** ** The properties at sample inputs *)

Lemma generate_gated_witness :
  run (Sample.world [Sample.image_part "AAAA"]) []
    (click_generate (setIsGenerating true (Sample.typing "Had a picnic")))
    (setIsGenerating true (Sample.typing "Had a picnic"))
  = mkRun (setIsGenerating true (Sample.typing "Had a picnic")) [] (Resolved tt).
Proof.
  apply (generate_gated (Sample.world [Sample.image_part "AAAA"]) []
           (setIsGenerating true (Sample.typing "Had a picnic"))).
  right. reflexivity.
Defined.

Lemma generate_success_witness :
  history
    (final (run (Sample.world [Sample.image_part "AAAA"]) []
              (handleGenerateDoodle (Sample.typing "Had a picnic"))
              (Sample.typing "Had a picnic"))) !! 0
  = Some (entry_of (Sample.world [Sample.image_part "AAAA"])
            (Sample.typing "Had a picnic")
            (Sample.response_with [Sample.image_part "AAAA"])
            (Sample.response_with [Sample.image_part "AAAA"])).
Proof.
  apply (generate_success (Sample.world [Sample.image_part "AAAA"]) []
           (Sample.typing "Had a picnic")
           (Sample.response_with [Sample.image_part "AAAA"])
           (Sample.response_with [Sample.image_part "AAAA"]));
    reflexivity.
Defined.

(** C4 as stated fails: both calls succeed, the image response carries only
    a text part, and the entry placed at index 0 has the empty image URL. *)
Lemma generate_success_counterexample :
  let w := Sample.world [Sample.text_part "no image today"] in
  let s := Sample.typing "Had a picnic" in
  let r := run w [] (handleGenerateDoodle s) s in
  fails_at w s = None
  ∧ result r = Resolved tt
  ∧ length (remote_calls (trace r)) = 2
  ∧ DoodleEntry.imageUrl <$> history (final r) !! 0 = Some EmptyString.
Proof. by vm_compute. Qed.


(** C6 as stated fails: a history of size 2 both of whose entries have the id
    of the deletion loses both, and is of size 0, not 1. The history is the
    one two generations leave when the clock reads the same at both. *)
Lemma remove_counterexample :
  let id := Js.toString (Date_now Sample.clock0) in
  let h := history Sample.twice in
  length h = 2
  ∧ (∃ e, e ∈ h ∧ DoodleEntry.id e = id)
  ∧ length (history (final (run (Sample.world []) []
                              (deleteEntry Sample.twice id) Sample.twice))) = 0.
Proof.
  cbv zeta. split_and!; [by vm_compute| |by vm_compute].
  eexists. split; [by vm_compute; left|by vm_compute].
Qed.




(** * Further properties of the code *)

(** ** Colour swatches *)

Lemma lookup_own_palette (key hex : string) :
  ColorMap.lookup_own key ColorMap.own = Some hex →
  is_hex_color hex = true ∧ Js.truthy hex = true ∧ key ∉ ColorMap.Object_prototype.
Proof.
  unfold ColorMap.own. cbn [ColorMap.lookup_own].
  repeat (destruct (decide _) as [<-|_];
          [intros H; injection H as <-; split_and!;
             [reflexivity|reflexivity|unfold ColorMap.Object_prototype;
                repeat (apply not_elem_of_cons; split; [done|]); apply not_elem_of_nil]|]).
  done.
Qed.

(** X1: for a name that is not a member of [Object.prototype], the swatch
    colour is a string of the form [#rrggbb]: the palette's own value for
    the nine palette names, black for every other name. For a member of
    [Object.prototype] the lookup yields the inherited member, not a colour. *)
Theorem getColorHex_spec (colorName : string) :
  (colorName ∉ ColorMap.Object_prototype →
   ∃ hex, getColorHex colorName = ColorMap.Str hex
          ∧ is_hex_color hex = true
          ∧ (∀ own, ColorMap.lookup_own colorName ColorMap.own = Some own → hex = own)
          ∧ (ColorMap.lookup_own colorName ColorMap.own = None → hex = "#000000"))
  ∧ (colorName ∈ ColorMap.Object_prototype →
     getColorHex colorName = ColorMap.Inherited colorName).
Proof.
  unfold getColorHex, ColorMap.get. split.
  - intros Hproto.
    destruct (ColorMap.lookup_own colorName ColorMap.own) as [hex|] eqn:Hown.
    + destruct (lookup_own_palette _ _ Hown) as (Hhex & -> & _).
      exists hex. split_and!; [done|done|by intros ? [= ->]|done].
    + rewrite bool_decide_eq_false_2 by done.
      exists "#000000". split_and!; done.
  - intros Hproto.
    destruct (ColorMap.lookup_own colorName ColorMap.own) as [hex|] eqn:Hown.
    + by destruct (lookup_own_palette _ _ Hown) as (_ & _ & ?).
    + by rewrite bool_decide_eq_true_2.
Qed.

(** ** The archive exporter, further *)

(** X2: an export never throws and never changes the journal: History, the
    current entry, the input transcript and the style are what they were
    when the zip library returned. With an empty history it does nothing at
    all; otherwise it ends with the exporting flag down. *)
Theorem export_preserves_journal (w : World) (ms : Meanwhile) (s : AppState) :
  let r := run w ms (handleExportArchive s) s in
  let before := meanwhile ms 1 (setError None (setIsExporting true s)) in
  result r = Resolved tt
  ∧ (history s = [] → r = mkRun s [] (Resolved tt))
  ∧ (history s ≠ [] →
     history (final r) = history before
     ∧ currentDoodle (final r) = currentDoodle before
     ∧ transcript (final r) = transcript before
     ∧ style (final r) = style before
     ∧ isGenerating (final r) = isGenerating before
     ∧ isExporting (final r) = false)
  ∧ (ms = [] →
     history (final r) = history s
     ∧ currentDoodle (final r) = currentDoodle s
     ∧ transcript (final r) = transcript s
     ∧ style (final r) = style s).
Proof.
  intros r before. subst r before.
  destruct (history s) as [|e h] eqn:Hh.
  - unfold handleExportArchive. rewrite Hh. cbn. split_and!; done.
  - rewrite run_export by by rewrite Hh. cbv zeta.
    destruct (zipper w _) as [blob|err]; cbn [final result].
    + split_and!; try done. intros ->. cbn. by rewrite Hh.
    + split_and!; try done. intros ->. cbn. by rewrite Hh.
Qed.



(** X4: the archive's file name is the fixed prefix, the part of the ISO
    timestamp before its first [T] (the calendar date), and [.zip]; a
    timestamp without [T] is used whole. *)
Theorem archive_name_date (date rest : string) :
  forallb (fun c => negb (Ascii.eqb c "T")) (list_ascii_of_string date) = true →
  archive_name (date +:+ String "T" rest) = "DoodleDiary-Archive-" +:+ date +:+ ".zip"
  ∧ archive_name date = "DoodleDiary-Archive-" +:+ date +:+ ".zip".
Proof.
  intros Hd. unfold archive_name. split.
  - by rewrite split_at_first by done.
  - by rewrite split_comma_free by done.
Qed.

Lemma archive_name_date_witness :
  archive_name "2026-11-02T08:15:00.000Z" = "DoodleDiary-Archive-2026-11-02.zip".
Proof.
  apply (archive_name_date "2026-11-02" "08:15:00.000Z"). reflexivity.
Defined.



(** What the loop adds to the archive: the files of the entries, and folders
    on the way to them. *)
Lemma foldl_export_paths (h : list DoodleEntry.t) (acc : JSZip * list json)
    (path : string) :
  is_Some ((foldl export_entry acc h).1 !! path) →
  is_Some (acc.1 !! path)
  ∨ (∃ e, e ∈ h ∧ (path = transcript_path e ∨ path = image_path e))
  ∨ ((foldl export_entry acc h).1 !! path = Some Folder
     ∧ ends_with_slash path = true
     ∧ ∃ e, e ∈ h ∧ (starts_with path (transcript_path e)
                     ∨ starts_with path (image_path e))).
Proof.
  revert acc. induction h as [|e h IH]; intros acc Hp; [by left|].
  simpl in Hp. simpl. destruct (IH _ Hp) as [Hacc|[(e' & He' & Hpath)|(Hf & Hs & e' & He' & Hpre)]].
  - destruct (decide (path = transcript_path e)) as [->|Ht].
    { right. left. exists e. split; [left|by left]. }
    destruct (decide (path = image_path e)) as [->|Hi].
    { right. left. exists e. split; [left|by right]. }
    destruct (acc.1 !! path) as [d|] eqn:Hd; [by left|].
    destruct (export_entry_new acc e path Ht Hi Hd Hacc) as (Hf & Hs & Hpre).
    right. right. split_and!; [|done|].
    + rewrite foldl_export_frame; [done| |by right].
      intros e' _. split; intros ->.
      * by rewrite transcript_path_file in Hs.
      * by rewrite image_path_file in Hs.
    + exists e. split; [left|done].
  - right. left. exists e'. split; [by right|done].
  - right. right. split_and!; [done|done|]. exists e'. split; [by right|done].
Qed.

Lemma size_insert_le (z : JSZip) (path : string) (data : FileData) :
  (size (<[path := data]> z) ≤ S (size z))%nat.
Proof. rewrite map_size_insert. destruct (z !! path); simpl; lia. Qed.

(** With ids without slash, the loop writes files and nothing else. *)
Lemma export_loop_slash_free (h : list DoodleEntry.t) :
  Forall (fun e => slash_free (DoodleEntry.id e) = true) h →
  (size (export_loop h).1 ≤ 2 * length h + 2)%nat
  ∧ (∀ path, is_Some ((export_loop h).1 !! path) →
       path ∈ ["transcripts/"; "doodles/"]
       ∨ ∃ e, e ∈ h ∧ (path = transcript_path e ∨ path = image_path e)).
Proof.
  induction h as [|e h IH] using rev_ind; intros Hall.
  - rewrite initial_zip. cbn [fst length]. split.
    + etrans; [apply size_insert_le|].
      apply le_n_S. etrans; [apply size_insert_le|]. by rewrite map_size_empty.
    + intros path Hp. left.
      destruct (decide (path = "transcripts/")) as [->|Ht]; [left|].
      destruct (decide (path = "doodles/")) as [->|Hd]; [right; left|].
      rewrite !lookup_insert_ne, lookup_empty in Hp by done. by destruct Hp.
  - apply Forall_app in Hall as [Hh He]. rewrite Forall_singleton in He.
    destruct (IH Hh) as [Hsize Hpaths]. rewrite export_loop_snoc. split.
    + rewrite length_app. cbn [length].
      rewrite export_entry_files_eq. cbv zeta.
      destruct (export_loop_folders h) as [Htf Hdf].
      unfold transcript_path, image_path.
      rewrite (fileAdd_in "transcripts") by
        (done || by apply slash_free_file_name || by apply append_nonempty).
      pose proof (size_insert_le (export_loop h).1
                    ("transcripts" +:+ "/" +:+ fileNameBase e +:+ ".txt")
                    (Text (DoodleEntry.transcript e))) as Hfirst.
      destruct (base64Data e) as [p|]; [destruct (Js.truthy p)|]; try lia.
      rewrite (fileAdd_in "doodles") by
        (by apply slash_free_file_name || by apply append_nonempty
         || by rewrite lookup_insert_ne).
      etrans; [apply size_insert_le|]. lia.
    + intros path Hp.
      destruct (decide (path = transcript_path e)) as [->|Ht].
      { right. exists e. split; [apply elem_of_app; right; left|by left]. }
      destruct (decide (path = image_path e)) as [->|Hi].
      { right. exists e. split; [apply elem_of_app; right; left|by right]. }
      rewrite export_entry_slash_free in Hp by done.
      destruct (Hpaths path Hp) as [?|(e' & He' & ?)]; [by left|].
      right. exists e'. split; [apply elem_of_app; by left|done].
Qed.

(** X6: what the archive holds. The manifest and the two folders are always
    there, and so is the transcript file of every entry. Every path of the
    archive is one of those three, or the transcript or image file of a
    history entry, or a folder on the way to such a file. When no id has a
    slash there are no such folders, and the archive has at most [2n + 3]
    paths for a history of [n] entries. *)
Theorem archive_paths (h : list DoodleEntry.t) (iso : string) :
  let zip := assemble h iso in
  (∀ path, is_Some (zip !! path) →
     path ∈ ["index.json"; "transcripts/"; "doodles/"]
     ∨ (∃ e, e ∈ h ∧ (path = transcript_path e ∨ path = image_path e))
     ∨ (zip !! path = Some Folder
        ∧ ends_with_slash path = true
        ∧ ∃ e, e ∈ h ∧ (starts_with path (transcript_path e)
                        ∨ starts_with path (image_path e))))
  ∧ (Forall (fun e => slash_free (DoodleEntry.id e) = true) h →
     (size zip ≤ 2 * length h + 3)%nat
     ∧ ∀ path, is_Some (zip !! path) →
         path ∈ ["index.json"; "transcripts/"; "doodles/"]
         ∨ ∃ e, e ∈ h ∧ (path = transcript_path e ∨ path = image_path e))
  ∧ zip !! "doodles/" = Some Folder
  ∧ zip !! "transcripts/" = Some Folder
  ∧ is_Some (zip !! "index.json")
  ∧ (∀ e, e ∈ h → is_Some (zip !! transcript_path e)).
Proof.
  intros zip. subst zip. split_and!.
  - intros path Hp.
    destruct (decide (path = "index.json")) as [->|Hi]; [left; left|].
    rewrite assemble_lookup in Hp |- * by done.
    change (export_loop h) with (foldl export_entry (export_loop []) h) in Hp |- *.
    apply foldl_export_paths in Hp as [Hp|[Hp|Hp]]; [left|by right; left|by right; right].
    rewrite initial_zip in Hp. cbn [fst] in Hp.
    destruct (decide (path = "transcripts/")) as [->|Ht]; [right; left|].
    destruct (decide (path = "doodles/")) as [->|Hd]; [do 2 right; left|].
    rewrite !lookup_insert_ne, lookup_empty in Hp by done. by destruct Hp.
  - intros Hall. destruct (export_loop_slash_free h Hall) as [Hsize Hpaths]. split.
    + unfold assemble. rewrite zip_file_index.
      etrans; [apply size_insert_le|]. lia.
    + intros path Hp.
      destruct (decide (path = "index.json")) as [->|Hi]; [left; left|].
      rewrite assemble_lookup in Hp by done.
      destruct (Hpaths path Hp) as [Hin|?]; [left|by right].
      by right.
  - rewrite assemble_lookup by done. apply export_loop_folder. by right.
  - rewrite assemble_lookup by done. apply export_loop_folder. by left.
  - by rewrite assemble_manifest.
  - intros e He. rewrite assemble_lookup by done.
    apply list_elem_of_split in He as (h1 & h2 & ->).
    replace (h1 ++ e :: h2) with ((h1 ++ [e]) ++ h2) by by rewrite <- app_assoc.
    rewrite export_loop_app, export_loop_snoc.
    apply foldl_export_is_Some. by rewrite export_entry_transcript.
Qed.

(** X7: when several entries have one id, their files have one name and
    the last entry in history order (the oldest) wins: the transcript file
    holds the transcript of the last entry with the id, and the image file
    the payload of that entry when it has one, while the manifest still
    lists every entry. *)
Theorem archive_last_wins (h1 h2 : list DoodleEntry.t) (e : DoodleEntry.t)
    (iso : string) :
  (∀ e', e' ∈ h2 → DoodleEntry.id e' ≠ DoodleEntry.id e) →
  let zip := assemble (h1 ++ e :: h2) iso in
  zip !! transcript_path e = Some (Text (DoodleEntry.transcript e))
  ∧ (∀ payload, base64Data e = Some payload → payload ≠ EmptyString →
       zip !! image_path e = Some (Base64 payload))
  ∧ (∀ e', e' ∈ h1 → DoodleEntry.id e' = DoodleEntry.id e →
       zip !! transcript_path e' = Some (Text (DoodleEntry.transcript e)))
  ∧ zip !! "index.json"
    = Some (Stringified (manifest (metadata_of <$> h1 ++ e :: h2) iso)).
Proof.
  intros Hids zip. subst zip.
  assert (∀ path, path ≠ "index.json" →
            (path = transcript_path e ∨ path = image_path e) →
            assemble (h1 ++ e :: h2) iso !! path
            = (export_entry (export_loop h1) e).1 !! path) as Hlast.
  { intros path Hi Hpath. rewrite assemble_lookup by done.
    replace (h1 ++ e :: h2) with ((h1 ++ [e]) ++ h2) by by rewrite <- app_assoc.
    rewrite export_loop_app, export_loop_snoc.
    destruct (foldl_export_other_ids h2 (export_entry (export_loop h1) e) e Hids)
      as [Ht Hi'].
    by destruct Hpath as [-> | ->]. }
  split_and!.
  - rewrite Hlast by (done || by left). apply export_entry_transcript.
  - intros payload Hp Hne. rewrite Hlast by (done || by right).
    rewrite export_entry_image, Hp. by destruct payload.
  - intros e' _ Hid.
    assert (transcript_path e' = transcript_path e) as ->
      by (unfold transcript_path, fileNameBase; by rewrite Hid).
    rewrite Hlast by (done || by left). apply export_entry_transcript.
  - apply assemble_manifest.
Qed.

Lemma archive_last_wins_witness :
  let newer := Sample.entry "1" "data:image/png;base64,BBBB" in
  assemble [newer; Sample.e1] "2026-11-02T08:15:00.000Z" !! image_path newer
  = Some (Base64 "AAAA").
Proof.
  cbv zeta.
  pose proof (archive_last_wins [Sample.entry "1" "data:image/png;base64,BBBB"] []
                Sample.e1 "2026-11-02T08:15:00.000Z") as H.
  cbv zeta in H. destruct H as (_ & H & _).
  { intros e' He'. by apply elem_of_nil in He'. }
  exact (H "AAAA" eq_refl ltac:(discriminate)).
Defined.

(** ** From the gateway's response to the archive *)

Lemma firstInlineImage_firstInline (ps : list Part) :
  GeminiService.firstInlineImage ps =
  match firstInline ps with
  | Some inline => "data:image/png;base64," +:+ Js.interpolate (data inline)
  | None => EmptyString
  end.
Proof.
  induction ps as [|p ps IH]; [done|]. simpl. by destruct (inlineData p).
Qed.

Lemma base64Data_png (e : DoodleEntry.t) (d : string) :
  DoodleEntry.imageUrl e = "data:image/png;base64," +:+ d →
  base64Data e = Js.split Js.comma d !! 0.
Proof.
  intros Hurl. unfold base64Data. rewrite Hurl.
  change ("data:image/png;base64," +:+ d)
    with ("data:image/png;base64" +:+ String Js.comma d).
  by rewrite split_at_first by reflexivity.
Qed.

(** The files of the first entry of a history whose other entries have
    other ids. *)
Lemma assemble_head (e : DoodleEntry.t) (h : list DoodleEntry.t) (iso : string) :
  (∀ e', e' ∈ h → DoodleEntry.id e' ≠ DoodleEntry.id e) →
  assemble (e :: h) iso !! transcript_path e = Some (Text (DoodleEntry.transcript e))
  ∧ assemble (e :: h) iso !! image_path e
    = match base64Data e with
      | Some payload => if Js.truthy payload then Some (Base64 payload) else None
      | None => None
      end.
Proof.
  intros Hids. rewrite !assemble_lookup by done.
  change (export_loop (e :: h))
    with (foldl export_entry (export_entry (export_loop []) e) h).
  destruct (foldl_export_other_ids h (export_entry (export_loop []) e) e Hids)
    as [-> ->].
  split; [apply export_entry_transcript|].
  rewrite export_entry_image.
  by destruct (initial_zip_lookup e) as [_ ->].
Qed.

(** X8: what the image call returned is what the archive holds. For the
    entry a generation has just put in front of a history without its id:
    when the first inline part of the response carries non-empty base64
    data, the entry's image file in the archive has exactly that data as
    its base64 content; when the response has no inline part, or its data
    is empty, the archive has the entry's transcript and no image file;
    when the inline part has no [data] field, the text [undefined] is
    written as the payload. *)
Theorem generated_image_exported (ps : list Part) (e : DoodleEntry.t)
    (h : list DoodleEntry.t) (iso : string) :
  DoodleEntry.imageUrl e = GeminiService.firstInlineImage ps →
  (∀ e', e' ∈ h → DoodleEntry.id e' ≠ DoodleEntry.id e) →
  let zip := assemble (e :: h) iso in
  zip !! transcript_path e = Some (Text (DoodleEntry.transcript e))
  ∧ (∀ inline d, firstInline ps = Some inline → data inline = Some d →
       is_base64 d = true → d ≠ EmptyString →
       zip !! image_path e = Some (Base64 d))
  ∧ (firstInline ps = None → zip !! image_path e = None)
  ∧ (∀ inline, firstInline ps = Some inline → data inline = Some EmptyString →
       zip !! image_path e = None)
  ∧ (∀ inline, firstInline ps = Some inline → data inline = None →
       zip !! image_path e = Some (Base64 "undefined")).
Proof.
  intros Hurl Hids zip. subst zip.
  destruct (assemble_head e h iso Hids) as [Ht Hi].
  rewrite firstInlineImage_firstInline in Hurl.
  split; [done|]. rewrite Hi. split_and!.
  - intros inline d Hf Hd Hb Hne. rewrite Hf, Hd in Hurl.
    rewrite (base64Data_png e d Hurl).
    rewrite split_comma_free by by apply base64_comma_free.
    by destruct d.
  - intros Hf. rewrite Hf in Hurl. unfold base64Data. by rewrite Hurl.
  - intros inline Hf Hd. rewrite Hf, Hd in Hurl.
    by rewrite (base64Data_png e EmptyString Hurl).
  - intros inline Hf Hd. rewrite Hf, Hd in Hurl.
    by rewrite (base64Data_png e "undefined" Hurl).
Qed.

Lemma generated_image_exported_witness :
  let w := Sample.world [Sample.text_part "a caption"; Sample.image_part "QUJD"] in
  let s := Sample.typing "Had a picnic" in
  let e := entry_of w s (Sample.response_with []) (Sample.response_with
             [Sample.text_part "a caption"; Sample.image_part "QUJD"]) in
  history (final (run w [] (handleGenerateDoodle s) s)) = [e]
  ∧ assemble [e] (toISOString Sample.clock0) !! image_path e = Some (Base64 "QUJD").
Proof.
  cbv zeta. split; [reflexivity|].
  pose proof (generated_image_exported
                [Sample.text_part "a caption"; Sample.image_part "QUJD"]
                (entry_of (Sample.world [Sample.text_part "a caption";
                                         Sample.image_part "QUJD"])
                   (Sample.typing "Had a picnic") (Sample.response_with [])
                   (Sample.response_with
                      [Sample.text_part "a caption"; Sample.image_part "QUJD"]))
                [] (toISOString Sample.clock0) eq_refl) as H.
  cbv zeta in H. destruct H as (_ & H & _).
  { intros e' He'. by apply elem_of_nil in He'. }
  exact (H _ "QUJD" eq_refl eq_refl eq_refl ltac:(discriminate)).
Defined.

(** ** Generation, further *)

(** X9: whatever the gateway does, a generation never throws, makes at most
    two remote calls, and touches History only by putting one new entry in
    front of it: the entries that were there stay, in their order. The
    style and the recording and exporting flags are left alone, and a
    generation that got past the transcript check ends with the generating
    flag down. *)
Theorem generation_grows (w : World) (ms : Meanwhile) (s : AppState) :
  let r := run w ms (handleGenerateDoodle s) s in
  result r = Resolved tt
  ∧ (length (remote_calls (trace r)) ≤ 2)%nat
  ∧ (Js.truthy (Js.trim (transcript s)) = true → isGenerating (final r) = false)
  ∧ (ms = [] →
     (history (final r) = history s
      ∨ ∃ e, history (final r) = e :: history s
             ∧ currentDoodle (final r) = Some e
             ∧ DoodleEntry.transcript e = transcript s)
     ∧ style (final r) = style s
     ∧ isRecording (final r) = isRecording s
     ∧ isExporting (final r) = isExporting s).
Proof.
  intros r. subst r.
  destruct (Js.truthy (Js.trim (transcript s))) eqn:Ht.
  - destruct (fails_at w s) as [n|] eqn:Hf.
    + destruct (run_generate_failed w ms s n Ht Hf) as [err ->].
      cbn [final trace result]. rewrite remote_calls_requests, app_nil_r.
      split_and!; try done.
      * unfold requests_until. destruct n as [|[|[|n]]]; simpl;
          try destruct (gateway w _); simpl; lia.
      * intros ->. unfold meanwhile. rewrite take_nil. simpl.
        split_and!; try done. by left.
    + unfold fails_at in Hf.
      destruct (gateway w (GeminiService.visualPromptRequest _ _))
        as [resp1|] eqn:H1; [|done].
      destruct (gateway w (GeminiService.doodleRequest _))
        as [resp2|] eqn:H2; [|done].
      rewrite (run_generate_ok w ms s resp1 resp2 Ht H1 H2).
      cbn [final trace result]. split_and!; try done.
      intros ->. unfold meanwhile. rewrite take_nil. simpl.
      split_and!; try done. right. by eexists.
  - unfold handleGenerateDoodle. rewrite Ht. cbn.
    split_and!; try done; [lia|]. intros _. split_and!; try done. by left.
Qed.

(** X10: in a generation whose two calls succeed, exactly two requests are
    sent, the prompt request and then the image request, and the image
    request carries the very prompt kept by the entry that the generation
    makes current and puts at index 0 of History. That prompt is never
    empty: it is the text of the first response, or the fixed fallback when
    that text is missing or empty. The entry keeps the transcript as typed,
    untrimmed, and its id and date are what the clock reads after both
    calls. A message shown before is cleared. *)
Theorem generation_prompt (w : World) (ms : Meanwhile) (s : AppState)
    (resp1 resp2 : GenerateContentResponse) :
  Js.truthy (Js.trim (transcript s)) = true →
  gateway w (GeminiService.visualPromptRequest (transcript s) (style s))
    = Resolved resp1 →
  gateway w (GeminiService.doodleRequest (GeminiService.visualPromptOf resp1))
    = Resolved resp2 →
  let r := run w ms (handleGenerateDoodle s) s in
  ∃ e,
    currentDoodle (final r) = Some e
    ∧ history (final r) !! 0 = Some e
    ∧ trace r = [generateContent
                   (mkRequest "gemini-3-flash-preview"
                      (ContentsText
                         (GeminiService.visualPromptContents (transcript s) (style s)))
                      None);
                 generateContent
                   (mkRequest "gemini-2.5-flash-image"
                      (ContentsParts [DoodleEntry.prompt e]) (Some "1:1"));
                 readClock]
    ∧ DoodleEntry.prompt e ≠ EmptyString
    ∧ (∀ t, text resp1 = Some t → t ≠ EmptyString → DoodleEntry.prompt e = t)
    ∧ (text resp1 = None ∨ text resp1 = Some EmptyString →
       DoodleEntry.prompt e = "A simple doodle of a peaceful day.")
    ∧ DoodleEntry.transcript e = transcript s
    ∧ DoodleEntry.id e = Js.toString (Date_now (clock w))
    ∧ DoodleEntry.date e = toLocaleDateString (clock w)
    ∧ (ms = [] → error (final r) = None).
Proof.
  intros Ht H1 H2 r. subst r. exists (entry_of w s resp1 resp2).
  rewrite (run_generate_ok w ms s resp1 resp2 Ht H1 H2).
  cbn [final trace entry_of DoodleEntry.prompt DoodleEntry.transcript DoodleEntry.id
       DoodleEntry.date].
  unfold GeminiService.visualPromptOf. split_and!; try done.
  - destruct (text resp1) as [[|c t]|]; done.
  - intros t -> Hne. by destruct t.
  - by intros [-> | ->].
  - by intros ->.
Qed.

Lemma generation_prompt_witness :
  let w := Sample.world [Sample.image_part "AAAA"] in
  let s := setError (Some generate_error) (Sample.typing "Had a picnic") in
  error (final (run w [] (handleGenerateDoodle s) s)) = None.
Proof.
  cbv zeta.
  destruct (generation_prompt (Sample.world [Sample.image_part "AAAA"]) []
              (setError (Some generate_error) (Sample.typing "Had a picnic"))
              (Sample.response_with [Sample.image_part "AAAA"])
              (Sample.response_with [Sample.image_part "AAAA"])
              eq_refl eq_refl eq_refl) as (e & H).
  by apply H.
Defined.

(** ** Deletion, further *)

Lemma final_deleteEntry (w : World) (ms : Meanwhile) (s : AppState) (id : string) :
  final (run w ms (deleteEntry s id) s) =
  mkApp (transcript s) (isRecording s) (isGenerating s) (isExporting s)
    (current_after_delete id (currentDoodle s)) (removeById id (history s))
    (error s) (style s).
Proof.
  rewrite run_deleteEntry. cbn [final]. unfold current_after_delete.
  destruct (currentDoodle s) as [e|] eqn:He; cbn.
  - destruct (decide (DoodleEntry.id e = id)) as [->|Hne].
    + rewrite decide_True by done. unfold setCurrentDoodle, setHistory. cbn.
      by rewrite ?He.
    + rewrite decide_False by congruence. unfold setHistory. by rewrite ?He.
  - rewrite decide_False by done. unfold setHistory. by rewrite ?He.
Qed.

Lemma current_after_delete_idemp (id : string) (c : option DoodleEntry.t) :
  current_after_delete id (current_after_delete id c) = current_after_delete id c.
Proof.
  unfold current_after_delete. destruct c as [e|]; [|done].
  destruct (decide (DoodleEntry.id e = id)) as [|Hne]; [done|].
  by rewrite decide_False.
Qed.

Lemma current_after_delete_comm (id1 id2 : string) (c : option DoodleEntry.t) :
  current_after_delete id1 (current_after_delete id2 c)
  = current_after_delete id2 (current_after_delete id1 c).
Proof.
  unfold current_after_delete. destruct c as [e|]; [|done].
  destruct (decide (DoodleEntry.id e = id1)) as [H1|H1];
    destruct (decide (DoodleEntry.id e = id2)) as [H2|H2];
    rewrite ?decide_True, ?decide_False by done; done.
Qed.

Lemma removeById_idemp (id : string) (h : list DoodleEntry.t) :
  removeById id (removeById id h) = removeById id h.
Proof.
  unfold removeById. rewrite list_filter_filter.
  apply list_filter_iff. tauto.
Qed.

Lemma removeById_comm (id1 id2 : string) (h : list DoodleEntry.t) :
  removeById id1 (removeById id2 h) = removeById id2 (removeById id1 h).
Proof.
  unfold removeById. rewrite !list_filter_filter.
  apply list_filter_iff. tauto.
Qed.

(** X11: deleting is idempotent and deletions commute, on the whole state:
    deleting an id a second time changes nothing, and deleting two ids in
    either order ends in the same state. A deletion performs no effect and
    touches History and the current entry only: the transcript, the style,
    the message and the three flags are left as they are. *)
Theorem delete_idempotent_commutes (w : World) (ms : Meanwhile) (s : AppState)
    (id1 id2 : string) :
  let del id st := final (run w ms (deleteEntry st id) st) in
  del id1 (del id1 s) = del id1 s
  ∧ del id1 (del id2 s) = del id2 (del id1 s)
  ∧ transcript (del id1 s) = transcript s
  ∧ style (del id1 s) = style s
  ∧ error (del id1 s) = error s
  ∧ isGenerating (del id1 s) = isGenerating s
  ∧ isRecording (del id1 s) = isRecording s
  ∧ isExporting (del id1 s) = isExporting s
  ∧ history (del id1 s) = filter (fun e => DoodleEntry.id e ≠ id1) (history s)
  ∧ currentDoodle (del id1 s)
    = match currentDoodle s with
      | Some e => if decide (DoodleEntry.id e = id1) then None else Some e
      | None => None
      end
  ∧ trace (run w ms (deleteEntry s id1) s) = [].
Proof.
  cbv beta zeta. rewrite !final_deleteEntry, run_deleteEntry.
  cbn [history currentDoodle transcript isRecording isGenerating isExporting
       error style trace].
  rewrite removeById_idemp, current_after_delete_idemp.
  rewrite (removeById_comm id1 id2), (current_after_delete_comm id1 id2).
  done.
Qed.

(** X12: generating and then deleting the new entry undoes the addition:
    when no earlier entry has the new entry's id, History is back to what it
    was before the generation and no entry is current. *)
Theorem generate_then_delete (w : World) (s : AppState)
    (resp1 resp2 : GenerateContentResponse) :
  Js.truthy (Js.trim (transcript s)) = true →
  gateway w (GeminiService.visualPromptRequest (transcript s) (style s))
    = Resolved resp1 →
  gateway w (GeminiService.doodleRequest (GeminiService.visualPromptOf resp1))
    = Resolved resp2 →
  (∀ e, e ∈ history s → DoodleEntry.id e ≠ Js.toString (Date_now (clock w))) →
  let s1 := final (run w [] (handleGenerateDoodle s) s) in
  let s2 := final (run w [] (deleteEntry s1 (Js.toString (Date_now (clock w)))) s1) in
  history s2 = history s
  ∧ currentDoodle s2 = None
  ∧ length (history s1) = S (length (history s)).
Proof.
  intros Ht H1 H2 Hfresh s1 s2. subst s2 s1.
  rewrite (run_generate_ok w [] s resp1 resp2 Ht H1 H2).
  rewrite final_deleteEntry. cbn [final]. unfold meanwhile. rewrite take_nil.
  cbn. rewrite decide_False by (intros H; by apply H).
  rewrite decide_True by done.
  split_and!; [|done|done]. by apply removeById_absent.
Qed.

Lemma generate_then_delete_witness :
  let w := Sample.world [Sample.image_part "AAAA"] in
  let s := setHistory (fun _ => [Sample.e2; Sample.e1]) (Sample.typing "Had a picnic") in
  let s1 := final (run w [] (handleGenerateDoodle s) s) in
  history (final (run w [] (deleteEntry s1 (Js.toString (Date_now (clock w)))) s1))
  = [Sample.e2; Sample.e1].
Proof.
  cbv zeta.
  pose proof (generate_then_delete (Sample.world [Sample.image_part "AAAA"])
                (setHistory (fun _ => [Sample.e2; Sample.e1])
                   (Sample.typing "Had a picnic"))
                (Sample.response_with [Sample.image_part "AAAA"])
                (Sample.response_with [Sample.image_part "AAAA"])
                eq_refl eq_refl eq_refl) as H.
  cbv zeta in H. apply H.
  intros e He. apply elem_of_cons in He as [->|He]; [discriminate|].
  apply list_elem_of_singleton in He as ->. discriminate.
Defined.

(** ** Voice input *)

Lemma concat_snoc (texts : list string) (t : string) :
  Voice.concat (texts ++ [t]) = Voice.concat texts +:+ t.
Proof.
  unfold Voice.concat. induction texts as [|x texts IH]; cbn [app foldr].
  - by rewrite append_empty_r.
  - by rewrite IH, append_assoc.
Qed.

(** The session accumulates the transcription texts, in order. *)
Lemma voice_accumulates (evs : list Voice.Event) (rec : Voice.Recorder)
    (current : string) (promise : outcome unit) :
  Voice.voiceSessionRef rec = Some (Voice.mkSession current promise) →
  Voice.voiceSessionRef (foldl Voice.step rec evs)
  = Some (Voice.mkSession (current +:+ Voice.concat (Voice.transcribed evs)) promise).
Proof.
  revert rec current. induction evs as [|ev evs IH]; intros rec current Href.
  - simpl. by rewrite append_empty_r.
  - simpl. destruct ev as [[text|]|i [text|]| | |]; cbn [Voice.transcribed omap].
    + rewrite (IH _ (current +:+ Js.interpolate text)).
      * unfold Voice.concat. cbn [foldr]. by rewrite append_assoc.
      * simpl. by rewrite Href.
    + by apply IH.
    + apply IH. simpl. by destruct (Voice.earlier rec !! i).
    + by apply IH.
    + by apply IH.
    + by apply IH.
    + by apply IH.
Qed.

(** Voice events leave the journal alone. *)
Lemma voice_frame (evs : list Voice.Event) (rec : Voice.Recorder) :
  history (Voice.app (foldl Voice.step rec evs)) = history (Voice.app rec)
  ∧ currentDoodle (Voice.app (foldl Voice.step rec evs)) = currentDoodle (Voice.app rec)
  ∧ style (Voice.app (foldl Voice.step rec evs)) = style (Voice.app rec).
Proof.
  revert rec. induction evs as [|ev evs IH]; intros rec; [done|].
  simpl. destruct (IH (Voice.step rec ev)) as (-> & -> & ->).
  destruct ev as [[text|]|i [text|]| | |]; simpl; try done.
  - by destruct (Voice.voiceSessionRef rec).
  - by destruct (Voice.earlier rec !! i).
Qed.

(** A message that arrives for a session after Stop: the session's closure
    still has its transcription, and the transcript is set to it once more. *)
Example voice_late_message :
  let rec1 := Voice.handleStartRecording (Resolved tt) (Resolved tt)
                (Voice.mkRecorder initial_state None) in
  let rec2 := foldl Voice.step rec1
                [Voice.Message (Some (Some "a")); Voice.Message (Some (Some "bc"))] in
  let stopped := (Voice.handleStopRecording rec2).1 in
  transcript (Voice.app stopped) = "abc"
  ∧ transcript (Voice.app (Voice.step stopped (Voice.LateMessage 0 (Some (Some "late")))))
    = "abclate"
  ∧ Voice.step stopped (Voice.Message (Some (Some "late"))) = stopped.
Proof. cbv zeta. split_and!; reflexivity. Qed.

(** X13: in a session started when none was open, and whose connection
    opened, Stop sets
    the transcript to the transcription texts received, concatenated in
    order, whatever was typed in the text area meanwhile: typed text is
    shown until the next transcription message or Stop, and then replaced.
    Stop lowers the recording flag and drops the session; History, the
    current entry and the style are untouched by the whole session. *)
Theorem voice_stop_transcript (rec0 : Voice.Recorder) (evs : list Voice.Event) :
  Voice.voiceSessionRef rec0 = None →
  let rec1 := Voice.handleStartRecording (Resolved tt) (Resolved tt) rec0 in
  let rec2 := foldl Voice.step rec1 evs in
  let stopped := (Voice.handleStopRecording rec2).1 in
  Voice.currentTranscription <$> Voice.voiceSessionRef rec2
    = Some (Voice.concat (Voice.transcribed evs))
  ∧ transcript (Voice.app stopped) = Voice.concat (Voice.transcribed evs)
  ∧ isRecording (Voice.app stopped) = false
  ∧ Voice.voiceSessionRef stopped = None
  ∧ (Voice.handleStopRecording rec2).2 = Resolved tt
  ∧ (∀ evs' typed, evs = evs' ++ [Voice.Typed typed] →
       transcript (Voice.app rec2) = typed)
  ∧ (∀ evs' text, evs = evs' ++ [Voice.Message (Some text)] →
       transcript (Voice.app rec2) = Voice.concat (Voice.transcribed evs))
  ∧ history (Voice.app stopped) = history (Voice.app rec0)
  ∧ currentDoodle (Voice.app stopped) = currentDoodle (Voice.app rec0)
  ∧ style (Voice.app stopped) = style (Voice.app rec0).
Proof.
  intros _ rec1 rec2 stopped.
  assert (Voice.voiceSessionRef rec2
          = Some (Voice.mkSession (Voice.concat (Voice.transcribed evs)) (Resolved tt)))
    as Href.
  { subst rec2. by rewrite (voice_accumulates evs rec1 EmptyString (Resolved tt)). }
  destruct (voice_frame evs rec1) as (Hh & Hc & Hs). fold rec2 in Hh, Hc, Hs.
  subst stopped. unfold Voice.handleStopRecording. rewrite Href.
  cbn [fst snd Voice.sessionPromise Voice.currentTranscription Voice.app
       Voice.voiceSessionRef fmap option_fmap option_map].
  split_and!; try done.
  - intros evs' typed ->. subst rec2. by rewrite foldl_snoc.
  - intros evs' text Hev. subst rec2. rewrite Hev, foldl_snoc.
    pose proof (voice_accumulates evs' rec1 EmptyString (Resolved tt) eq_refl) as Hacc.
    cbn [Voice.step]. rewrite Hacc.
    cbn [Voice.app Voice.currentTranscription transcript setTranscript].
    unfold Voice.transcribed. rewrite omap_app. cbn [omap list_omap].
    by rewrite concat_snoc.
Qed.

(** X14: the failure paths of voice input. When the session cannot start,
    the fixed message is shown, the recording flag is down, and no session
    is kept, so Stop then does nothing. When the session started but its
    connection was refused, Stop lets the rejection escape: the transcript
    and the session reference stay as they are. A connection error shows
    its own fixed message and lowers the flag but keeps the session. *)
Theorem voice_failures (rec : Voice.Recorder) (err : string) (promise : outcome unit) :
  let failed := Voice.handleStartRecording (Rejected err) promise rec in
  let refused := Voice.handleStartRecording (Resolved tt) (Rejected err) rec in
  error (Voice.app failed) = Some Voice.start_error
  ∧ isRecording (Voice.app failed) = false
  ∧ transcript (Voice.app failed) = transcript (Voice.app rec)
  ∧ Voice.voiceSessionRef failed = Voice.voiceSessionRef rec
  ∧ (Voice.voiceSessionRef rec = None →
     Voice.handleStopRecording failed = (failed, Resolved tt))
  ∧ (∀ evs, Voice.handleStopRecording (foldl Voice.step refused evs)
            = (foldl Voice.step refused evs, Rejected err))
  ∧ (∀ e, let broken := Voice.step refused (Voice.ConnectionError e) in
          error (Voice.app broken) = Some Voice.connection_error
          ∧ isRecording (Voice.app broken) = false
          ∧ Voice.voiceSessionRef broken = Voice.voiceSessionRef refused).
Proof.
  cbv zeta. split_and!; try done.
  - intros Href. unfold Voice.handleStopRecording. cbn. by rewrite Href.
  - intros evs. unfold Voice.handleStopRecording.
    by rewrite (voice_accumulates evs _ EmptyString (Rejected err)).
Qed.

Lemma voice_stop_transcript_witness :
  let rec0 := Voice.mkRecorder initial_state None in
  let evs := [Voice.Message (Some (Some "Had a ")); Voice.Typed "something else";
              Voice.Message None; Voice.Message (Some (Some "picnic"))] in
  transcript (Voice.app (Voice.handleStopRecording
                           (foldl Voice.step
                              (Voice.handleStartRecording (Resolved tt) (Resolved tt) rec0)
                              evs)).1)
  = "Had a picnic".
Proof.
  cbv zeta.
  pose proof (voice_stop_transcript (Voice.mkRecorder initial_state None)
                [Voice.Message (Some (Some "Had a ")); Voice.Typed "something else";
                 Voice.Message None; Voice.Message (Some (Some "picnic"))]
                eq_refl) as H.
  cbv zeta in H. by destruct H as (_ & -> & _).
Defined.

(** ** Loading, further *)



(** ** While a generation is in flight *)

(** X16: what the user does while a generation awaits the gateway. An
    entry deleted meanwhile stays deleted: the new entry is put in front of
    the history as it is then. A style chosen meanwhile is kept as the
    current style but the entry has the style of the click. Text typed
    meanwhile is lost: the input is cleared when the generation succeeds. *)
Theorem generation_meanwhile (w : World) (s : AppState)
    (resp1 resp2 : GenerateContentResponse)
    (id typed : string) (chosen : DoodleStyle.t) (ms : Meanwhile) :
  Js.truthy (Js.trim (transcript s)) = true →
  gateway w (GeminiService.visualPromptRequest (transcript s) (style s))
    = Resolved resp1 →
  gateway w (GeminiService.doodleRequest (GeminiService.visualPromptOf resp1))
    = Resolved resp2 →
  let user := fun st => setStyle chosen (setTranscript typed
                          (setHistory (removeById id) st)) in
  ms = [user] ∨ ms = [fun st => st; user] →
  let r := run w ms (handleGenerateDoodle s) s in
  let e := entry_of w s resp1 resp2 in
  history (final r) = e :: removeById id (history s)
  ∧ currentDoodle (final r) = Some e
  ∧ transcript (final r) = EmptyString
  ∧ style (final r) = chosen
  ∧ DoodleEntry.style e = style s
  ∧ DoodleEntry.transcript e = transcript s.
Proof.
  intros Ht H1 H2 user Hms r e. subst r e.
  rewrite (run_generate_ok w ms s resp1 resp2 Ht H1 H2).
  destruct Hms as [-> | ->]; by cbn.
Qed.

Lemma generation_meanwhile_witness :
  let w := Sample.world [Sample.image_part "AAAA"] in
  let s := setHistory (fun _ => [Sample.e2; Sample.e1]) (Sample.typing "Had a picnic") in
  let user := fun st => setStyle (DoodleStyle.mk Bold "Golden" Crayon)
                          (setTranscript "more" (setHistory (removeById "2") st)) in
  history (final (run w [user] (handleGenerateDoodle s) s))
  = [entry_of w s (Sample.response_with [Sample.image_part "AAAA"])
       (Sample.response_with [Sample.image_part "AAAA"]); Sample.e1].
Proof.
  cbv zeta.
  pose proof (generation_meanwhile (Sample.world [Sample.image_part "AAAA"])
                (setHistory (fun _ => [Sample.e2; Sample.e1])
                   (Sample.typing "Had a picnic"))
                (Sample.response_with [Sample.image_part "AAAA"])
                (Sample.response_with [Sample.image_part "AAAA"])
                "2" "more" (DoodleStyle.mk Bold "Golden" Crayon) _
                eq_refl eq_refl eq_refl (or_introl eq_refl)) as H.
  cbv zeta in H. by destruct H as (-> & _).
Defined.
